(** * Settings: a menu of (name, values) pairs on a character display

    Shallow embedding of [settings.h], [settings.cpp] and
    [st7735_properties.h], followed by the properties of the menu
    state machine (browsing / editing, pending versus current value,
    live update, accept and cancel).

    Conventions of the embedding.
    - The C++ [int] indices are written in [Z]; every index the code
      computes stays next to an array bound, far from the ends of [int].
    - The array [settings] with its first [nSettings] entries filled in is
      a list; [nSettings] is its length.  [settings == NULL] is [None].
    - A read outside an array, through a null pointer or of an entry that
      was never filled in has no meaning in C++: the operation yields
      [None] from there on.
    - The client's functions ([ChangeSettingFDef]) are identified by a
      number (the function pointer); what they do is given by [callback],
      which reads the setting it is handed and the client's own state and
      answers with the accepted flag.  The client does not write to the
      setting.
    - Everything the code does to the display and every call of a client
      function is appended to [trace]. *)

From Stdlib Require Import ZArith List String Bool Lia.
From stdpp Require Import base option list.
Import ListNotations.
Local Open Scope Z_scope.

(** ** st7735_properties.h *)

Definition TFT_HEIGHT : Z := 128.
Definition TFT_WIDTH : Z := 160.
Definition CHAR_WIDTH : Z := 6.
Definition CHAR_HEIGHT : Z := 8.
Definition TFT_LINES : Z := TFT_HEIGHT / CHAR_HEIGHT.
Definition TFT_CHARS : Z := 26.

Definition BLACK : Z := 0x0000.
Definition BLUE : Z := 0x001F.
Definition RED : Z := 0xF800.
Definition WHITE : Z := 0xFFFF.

(** [ST7735_BLACK] comes from the display driver's header. *)
Definition ST7735_BLACK : Z := 0x0000.

(** ** settings.h *)

Record Setting := mkSetting {
  name : option string;      (* char *name; NULL for an empty line *)
  values : list string;      (* char **values; NULL has no entry to read *)
  nValues : Z;
  currentValue : Z;
  newValue : Z;
  fPtr : option nat;         (* void *fPtr; None is NULL *)
  liveUpdate : bool;
  can : bool
}.

Definition set_newValue (v : Z) (s : Setting) : Setting :=
  mkSetting (name s) (values s) (nValues s) (currentValue s) v
            (fPtr s) (liveUpdate s) (can s).

Definition set_currentValue (v : Z) (s : Setting) : Setting :=
  mkSetting (name s) (values s) (nValues s) v (newValue s)
            (fPtr s) (liveUpdate s) (can s).

Definition set_can (b : bool) (s : Setting) : Setting :=
  mkSetting (name s) (values s) (nValues s) (currentValue s) (newValue s)
            (fPtr s) (liveUpdate s) b.

(** ** What the library does to the outside world *)

Inductive Event :=
| FillScreen (color : Z)
| FillRect (x y w h color : Z)
| SetCursor (x y : Z)
| SetTextColor (color : Z)
| Print (text : string)
| Call (f : nat) (arg : Setting) (accepted : bool).

Definition is_call (e : Event) : bool :=
  match e with Call _ _ _ => true | _ => false end.

(** The calls of client functions in a trace, oldest first. *)
Definition calls (t : list Event) : list Event := List.filter is_call t.

(** [strlen] and the two conversions the arithmetic of [displayValue] and
    [printAt] goes through on the 32-bit target. *)
Definition strlen (t : string) : Z := Z.of_nat (String.length t).
Definition to_size_t (z : Z) : Z := z mod 2 ^ 32.
Definition to_int (z : Z) : Z := (z + 2 ^ 31) mod 2 ^ 32 - 2 ^ 31.

(** Array read [a[i]]. *)
Definition index {A : Type} (a : list A) (i : Z) : option A :=
  if i <? 0 then None else a !! Z.to_nat i.

(** Array write [a[i] = x] at an index known to be inside. *)
Definition store {A : Type} (a : list A) (i : Z) (x : A) : list A :=
  <[Z.to_nat i := x]> a.

Section Globals.

(** The state of the owning application. *)
Variable World : Type.

(** ** The globals of settings.cpp *)

Record Machine := mkMachine {
  canUseDisplay : bool;
  maxSettings : Z;
  settings : option (list Setting);
  currentSetting : Z;
  topSetting : Z;
  editing : bool;
  world : World;
  trace : list Event
}.

Definition nSettings (m : Machine) : Z :=
  match settings m with
  | Some a => Z.of_nat (length a)
  | None => 0
  end.

Definition set_canUseDisplay (b : bool) (m : Machine) : Machine :=
  mkMachine b (maxSettings m) (settings m) (currentSetting m) (topSetting m)
            (editing m) (world m) (trace m).

Definition set_settings (a : option (list Setting)) (m : Machine) : Machine :=
  mkMachine (canUseDisplay m) (maxSettings m) a (currentSetting m)
            (topSetting m) (editing m) (world m) (trace m).

Definition set_currentSetting (i : Z) (m : Machine) : Machine :=
  mkMachine (canUseDisplay m) (maxSettings m) (settings m) i (topSetting m)
            (editing m) (world m) (trace m).

Definition set_topSetting (i : Z) (m : Machine) : Machine :=
  mkMachine (canUseDisplay m) (maxSettings m) (settings m) (currentSetting m)
            i (editing m) (world m) (trace m).

Definition set_editing (b : bool) (m : Machine) : Machine :=
  mkMachine (canUseDisplay m) (maxSettings m) (settings m) (currentSetting m)
            (topSetting m) b (world m) (trace m).

Definition set_world (w : World) (m : Machine) : Machine :=
  mkMachine (canUseDisplay m) (maxSettings m) (settings m) (currentSetting m)
            (topSetting m) (editing m) w (trace m).

Definition log (es : list Event) (m : Machine) : Machine :=
  mkMachine (canUseDisplay m) (maxSettings m) (settings m) (currentSetting m)
            (topSetting m) (editing m) (world m) (trace m ++ es).

(** ** Computations over the globals that may lose their meaning *)

Definition M (A : Type) : Type := Machine -> option (A * Machine).

Definition ret {A : Type} (a : A) : M A := fun m => Some (a, m).

Definition bind {A B : Type} (c : M A) (f : A -> M B) : M B :=
  fun m => match c m with
           | Some (a, m') => f a m'
           | None => None
           end.

Definition undefined {A : Type} : M A := fun _ => None.

Definition get : M Machine := fun m => Some (m, m).

Definition modify (f : Machine -> Machine) : M unit :=
  fun m => Some (tt, f m).

Definition emit (es : list Event) : M unit := modify (log es).

Definition lift {A : Type} (o : option A) : M A :=
  fun m => match o with Some a => Some (a, m) | None => None end.

End Globals.

Arguments ret {World A} a.
Arguments bind {World A B} c f.
Arguments undefined {World A}.
Arguments get {World}.
Arguments modify {World} f.
Arguments emit {World} es.
Arguments lift {World A} o.
Arguments canUseDisplay {World} m.
Arguments maxSettings {World} m.
Arguments settings {World} m.
Arguments currentSetting {World} m.
Arguments topSetting {World} m.
Arguments editing {World} m.
Arguments world {World} m.
Arguments trace {World} m.
Arguments nSettings {World} m.
Arguments set_canUseDisplay {World} b m.
Arguments set_settings {World} a m.
Arguments set_currentSetting {World} i m.
Arguments set_topSetting {World} i m.
Arguments set_editing {World} b m.
Arguments set_world {World} w m.
Arguments log {World} es m.

Declare Scope machine_scope.
Delimit Scope machine_scope with machine.
Notation "x <- c ;; k" := (bind c (fun x => k))
  (at level 100, c at next level, right associativity) : machine_scope.
Notation "c ;;; k" := (bind c (fun _ => k))
  (at level 100, right associativity) : machine_scope.
Local Open Scope machine_scope.

(** ** settings.cpp *)

Section Code.

Variable World : Type.

(** The change functions of the owning application, by function pointer. *)
Variable callback : nat -> Setting -> World -> bool * World.

Local Abbreviation Machine := (Machine World).
Local Abbreviation M := (M World).

(** [result = result && f()]: [f] runs only while [result] still holds. *)
Definition and_then (result : bool) (f : M bool) : M bool :=
  if result then f else ret false.

(** [settings[i]] read as a whole entry. *)
Definition getSetting (i : Z) : M Setting :=
  m <- get ;;
  match settings m with
  | Some a => lift (index a i)
  | None => undefined
  end.

(** [settings[i] = s] for an entry that exists. *)
Definition putSetting (i : Z) (s : Setting) : M unit :=
  m <- get ;;
  match settings m with
  | Some a =>
      match index a i with
      | Some _ => modify (set_settings (Some (store a i s)))
      | None => undefined
      end
  | None => undefined
  end.

(** [((ChangeSettingFDef) setting->fPtr)(setting)] *)
Definition callFPtr (s : Setting) : M bool :=
  match fPtr s with
  | Some f =>
      m <- get ;;
      let (accepted, w) := callback f s (world m) in
      modify (fun m => log [Call f s accepted] (set_world w m)) ;;;
      ret accepted
  | None => undefined
  end.

(** [can0] is what the fresh storage holds where [can] lies: the code
    leaves that field as [malloc] delivered it. *)
Definition createSetting (text : option string) (values : list string)
    (nValues currentValue : Z) (liveUpdate : bool) (setFPtr : option nat)
    (can0 : bool) : M (option Z) :=
  m <- get ;;
  if nSettings m =? maxSettings m then ret None
  else
    match settings m with
    | Some a =>
        if nSettings m <? maxSettings m
        then modify (set_settings (Some (a ++
               [mkSetting text values nValues currentValue currentValue
                          setFPtr liveUpdate can0]))) ;;;
             ret (Some (nSettings m))
        else undefined
    | None => undefined
    end.

(** [mallocOK] tells whether [malloc] returned storage.  The library is
    initialised once, before the first [createSetting]; a later call would
    leave [nSettings] entries of fresh storage that were never filled in. *)
Definition initSettings (n : Z) (mallocOK : bool) : M bool :=
  m <- get ;;
  match settings m with
  | Some (_ :: _) => undefined
  | _ =>
      modify (fun m =>
        mkMachine World (canUseDisplay m) n
                  (if mallocOK then Some [] else None)
                  (currentSetting m) (topSetting m) (editing m) (world m)
                  (trace m)) ;;;
      ret (true && mallocOK)
  end.

(** The display operations of one [printAt] that draws. *)
Definition printAt_ops (x y : Z) (text : string) (clean : bool)
    (colorFG colorBG leading : Z) : list Event :=
  let col := x * CHAR_WIDTH in
  let row := y * CHAR_HEIGHT in
  (if clean
   then [FillRect col row
           (to_size_t (to_size_t (strlen text + leading) * CHAR_WIDTH))
           CHAR_HEIGHT colorBG]
   else []) ++
  [SetCursor col row; SetTextColor colorFG] ++
  repeat (Print " ") (Z.to_nat leading) ++
  [Print text].

Definition printAt (x y : Z) (text : option string) (clean : bool)
    (colorFG colorBG leading : Z) : M bool :=
  m <- get ;;
  if negb (canUseDisplay m) then ret true
  else
    match text with
    | Some t => emit (printAt_ops x y t clean colorFG colorBG leading) ;;; ret true
    | None => if clean then undefined else ret true
    end.

Definition displayName (i row : Z) (clean : bool) (colorFG colorBG : Z)
    : M bool :=
  m <- get ;;
  match settings m with
  | None => ret false
  | Some _ =>
      s <- getSetting i ;;
      and_then true (printAt 2 row (name s) clean colorFG colorBG 0)
  end.

Definition displayValue (i row : Z) (clean : bool) (colorFG colorBG : Z)
    : M bool :=
  m <- get ;;
  match settings m with
  | None => ret false
  | Some _ =>
      s <- getSetting i ;;
      let actual := newValue s in
      v <- lift (index (values s) actual) ;;
      and_then true
        (printAt 19 row (Some v) clean colorFG colorBG
                 (to_int (to_size_t (TFT_CHARS - 19 - strlen v))))
  end.

Definition highlightValue : M bool :=
  m <- get ;;
  let row := currentSetting m - topSetting m in
  color <- (if editing m
            then s <- getSetting (currentSetting m) ;;
                 let valueIsCurrent := currentValue s =? newValue s in
                 ret (if valueIsCurrent then BLUE else RED)
            else ret WHITE) ;;
  and_then true (displayValue (currentSetting m) row true color BLACK).

Definition blank_line : string := "                          ".

Definition displaySetting (i row : Z) (clean : bool) (colorFG colorBG : Z)
    : M bool :=
  m <- get ;;
  match settings m with
  | None => ret false
  | Some _ =>
      s <- getSetting i ;;
      match name s with
      | Some _ =>
          result <- and_then true (displayName i row clean colorFG colorBG) ;;
          and_then result (displayValue i row clean colorFG colorBG)
      | None =>
          printAt 0 row (Some blank_line) true WHITE BLACK 0 ;;;
          ret true
      end
  end.

(** [for( int i=0; i<n && result; i++ )] with [todo] rounds left before
    [i] reaches [n]. *)
Fixpoint displaySettings_loop (first i : Z) (todo : nat) (result : bool)
    : M bool :=
  match todo with
  | O => ret result
  | S todo' =>
      if result
      then result' <- and_then result
                        (displaySetting (first + i) i false WHITE BLACK) ;;
           displaySettings_loop first (i + 1) todo' result'
      else ret result
  end.

Definition displaySettings (first : Z) : M bool :=
  m <- get ;;
  if negb (canUseDisplay m) then ret false
  else
    emit [FillScreen ST7735_BLACK] ;;;
    let n := nSettings m - first in
    let n := if n >? TFT_LINES then TFT_LINES else n in
    result <- displaySettings_loop first 0 (Z.to_nat n) true ;;
    modify (set_topSetting first) ;;;
    ret result.

Definition selectSetting (on : bool) : M bool :=
  m <- get ;;
  let row := currentSetting m - topSetting m in
  let sel := ">"%string in
  let space := " "%string in
  and_then true
    (printAt 0 row (Some (if on then sel else space)) true WHITE BLACK 0).

Definition settingsDisplayOn : M bool :=
  modify (set_canUseDisplay true) ;;;
  m <- get ;;
  result <- and_then true (displaySettings (topSetting m)) ;;
  selectSetting true ;;;
  ret result.

Definition settingsDisplayOff : M bool :=
  modify (set_canUseDisplay false) ;;;
  modify (set_editing false) ;;;
  ret true.

(** The value [scrollValue] moves to from [currentNewValue]. *)
Definition scrolled (d currentNewValue nValues : Z) : Z :=
  if (d >? 0) && (currentNewValue <? nValues - 1) then currentNewValue + d
  else if (d <? 0) && (currentNewValue >? 0) then currentNewValue + d
  else currentNewValue.

Definition scrollValue (d : Z) : M bool :=
  m <- get ;;
  match settings m with
  | None => if currentSetting m =? 0 then ret false else undefined
  | Some _ =>
      setting <- getSetting (currentSetting m) ;;
      let currentNewValue := newValue setting in
      let newNewValue := scrolled d currentNewValue (nValues setting) in
      if negb (newNewValue =? currentNewValue)
      then
        putSetting (currentSetting m) (set_newValue newNewValue setting) ;;;
        result <- and_then true highlightValue ;;
        (if liveUpdate setting
         then setting <- getSetting (currentSetting m) ;;
              accepted <- callFPtr setting ;;
              putSetting (currentSetting m) (set_can accepted setting)
         else ret tt) ;;;
        ret result
      else ret true
  end.

(** The [do ... while] of [scrollSetting]: [Some j] when it leaves through
    the loop condition with [newSetting = j], [None] when it leaves through
    [return false].  Every round but the last reads one more entry of
    [settings], so [fuel] rounds are enough once [fuel] exceeds their
    number. *)
Fixpoint scrollSetting_loop (d newSetting : Z) (fuel : nat)
    : M (option Z) :=
  match fuel with
  | O => undefined
  | S fuel' =>
      m <- get ;;
      if (d >? 0) && (newSetting <? nSettings m - 1)
         || (d <? 0) && (newSetting >? 0)
      then
        let newSetting := newSetting + d in
        s <- getSetting newSetting ;;
        match name s with
        | None => scrollSetting_loop d newSetting fuel'
        | Some _ => ret (Some newSetting)
        end
      else ret None
  end.

Definition scrollSetting (d : Z) : M bool :=
  m <- get ;;
  found <- scrollSetting_loop d (currentSetting m)
             (S (Z.to_nat (nSettings m))) ;;
  match found with
  | None => ret false
  | Some newSetting =>
      if negb (newSetting =? currentSetting m)
      then
        selectSetting false ;;;
        modify (set_currentSetting newSetting) ;;;
        m <- get ;;
        result <-
          (if currentSetting m <? topSetting m
           then and_then true (displaySettings (currentSetting m))
           else if currentSetting m >=? topSetting m + TFT_LINES
           then and_then true
                  (displaySettings (currentSetting m - TFT_LINES + 1))
           else ret true) ;;
        selectSetting true ;;;
        ret result
      else ret true
  end.

Definition settingsUp : M bool :=
  m <- get ;;
  if editing m then and_then true (scrollValue 1)
  else and_then true (scrollSetting 1).

Definition settingsDown : M bool :=
  m <- get ;;
  if editing m then and_then true (scrollValue (-1))
  else and_then true (scrollSetting (-1)).

Definition settingsOK : M bool :=
  m <- get ;;
  let result := true in
  (if editing m
   then
     setting <- getSetting (currentSetting m) ;;
     if negb (newValue setting =? currentValue setting)
     then
       if liveUpdate setting
       then
         if can setting
         then putSetting (currentSetting m)
                (set_currentValue (newValue setting) setting)
         else putSetting (currentSetting m)
                (set_newValue (currentValue setting) setting)
       else
         accepted <- callFPtr setting ;;
         if accepted
         then putSetting (currentSetting m)
                (set_currentValue (newValue setting) setting)
         else putSetting (currentSetting m)
                (set_newValue (currentValue setting) setting)
     else ret tt
   else ret tt) ;;;
  (if result then modify (set_editing (negb (editing m))) else ret tt) ;;;
  highlightValue ;;;
  ret result.

Definition resetNewValue : M bool :=
  m <- get ;;
  setting <- getSetting (currentSetting m) ;;
  let resetLive := liveUpdate setting && can setting
                   && negb (newValue setting =? currentValue setting) in
  let setting := set_newValue (currentValue setting) setting in
  putSetting (currentSetting m) setting ;;;
  (if resetLive then callFPtr setting ;;; ret tt else ret tt) ;;;
  ret true.

Definition settingsStop : M bool :=
  m <- get ;;
  if editing m then and_then true resetNewValue else ret true.

(** ** The public operations as one step function *)

Inductive Op :=
| Create (text : option string) (values : list string)
         (nValues currentValue : Z) (liveUpdate : bool)
         (setFPtr : option nat) (can0 : bool)
| DisplayOn
| DisplayOff
| Up
| Down
| OK
| Stop.

Definition created (r : option Z) : bool :=
  match r with Some _ => true | None => false end.

Definition exec (o : Op) : M bool :=
  match o with
  | Create text values nValues currentValue liveUpdate setFPtr can0 =>
      r <- createSetting text values nValues currentValue liveUpdate
             setFPtr can0 ;;
      ret (created r)
  | DisplayOn => settingsDisplayOn
  | DisplayOff => settingsDisplayOff
  | Up => settingsUp
  | Down => settingsDown
  | OK => settingsOK
  | Stop => settingsStop
  end.

Fixpoint run (os : list Op) (m : Machine) : option Machine :=
  match os with
  | [] => Some m
  | o :: os' =>
      match exec o m with
      | Some (_, m') => run os' m'
      | None => None
      end
  end.

(** The globals as the program starts ([topSetting] is zero like every
    global without an initialiser), then [initSettings n]. *)
Definition boot (w : World) : Machine :=
  mkMachine World false 0 None 0 0 false w [].

Definition start (n : Z) (w : World) : option Machine :=
  match initSettings n true (boot w) with
  | Some (_, m) => Some m
  | None => None
  end.

(** ** Notions the properties are stated with *)

(** [m'] is [m] after some display operations: nothing but the trace has
    changed, and no client function was called. *)
Definition paints (m m' : Machine) : Prop :=
  exists es, m' = log es m /\ calls es = [].

(** The amount [settingsUp] and [settingsDown] scroll by. *)
Definition amount (o : Op) : option Z :=
  match o with
  | Up => Some 1
  | Down => Some (-1)
  | _ => None
  end.

(** *** The menu without its display

    The part of the globals that does not belong to the display, with the
    calls made so far. *)
Record Logic := mkLogic {
  l_maxSettings : Z;
  l_settings : option (list Setting);
  l_currentSetting : Z;
  l_editing : bool;
  l_world : World;
  l_calls : list Event
}.

Definition logic (m : Machine) : Logic :=
  mkLogic (maxSettings m) (settings m) (currentSetting m) (editing m)
          (world m) (calls (trace m)).

Definition l_put (i : Z) (s : Setting) (L : Logic) : Logic :=
  match l_settings L with
  | Some a =>
      mkLogic (l_maxSettings L) (Some (store a i s)) (l_currentSetting L)
              (l_editing L) (l_world L) (l_calls L)
  | None => L
  end.

Definition l_call (s : Setting) (L : Logic) : bool * Logic :=
  match fPtr s with
  | Some f =>
      let (accepted, w) := callback f s (l_world L) in
      (accepted,
       mkLogic (l_maxSettings L) (l_settings L) (l_currentSetting L)
               (l_editing L) w (l_calls L ++ [Call f s accepted]))
  | None => (false, L)
  end.

Definition l_set_editing (b : bool) (L : Logic) : Logic :=
  mkLogic (l_maxSettings L) (l_settings L) (l_currentSetting L) b
          (l_world L) (l_calls L).

Definition l_selected (L : Logic) : option Setting :=
  match l_settings L with
  | Some a => index a (l_currentSetting L)
  | None => None
  end.

(** The loop of [scrollSetting] on the array alone: [None] where the
    loop reads outside the array or [fuel] is used up, [Some None] for
    [return false], [Some (Some j)] when it ends at [j]. *)
Fixpoint search (d : Z) (a : list Setting) (newSetting : Z) (fuel : nat)
    : option (option Z) :=
  match fuel with
  | O => None
  | S fuel' =>
      if (d >? 0) && (newSetting <? Z.of_nat (length a) - 1)
         || (d <? 0) && (newSetting >? 0)
      then
        match index a (newSetting + d) with
        | Some s =>
            match name s with
            | None => search d a (newSetting + d) fuel'
            | Some _ => Some (Some (newSetting + d))
            end
        | None => None
        end
      else Some None
  end.

Definition entries (o : option (list Setting)) : list Setting :=
  match o with Some a => a | None => [] end.

(** What [scrollValue d] does apart from the display. *)
Definition l_scrollValue (d : Z) (L : Logic) : Logic :=
  match l_selected L with
  | Some s =>
      let nv := scrolled d (newValue s) (nValues s) in
      if nv =? newValue s then L
      else
        let s1 := set_newValue nv s in
        let L1 := l_put (l_currentSetting L) s1 L in
        if liveUpdate s
        then let (accepted, L2) := l_call s1 L1 in
             l_put (l_currentSetting L) (set_can accepted s1) L2
        else L1
  | None => L
  end.

(** What [scrollSetting d] does apart from the display. *)
Definition l_scrollSetting (d : Z) (L : Logic) : Logic :=
  let a := entries (l_settings L) in
  match search d a (l_currentSetting L) (S (length a)) with
  | Some (Some j) =>
      mkLogic (l_maxSettings L) (l_settings L) j (l_editing L) (l_world L)
              (l_calls L)
  | _ => L
  end.

(** What [settingsOK] does apart from the display. *)
Definition l_settingsOK (L : Logic) : Logic :=
  if l_editing L
  then
    match l_selected L with
    | Some s =>
        l_set_editing false
          (if newValue s =? currentValue s then L
           else if liveUpdate s
           then l_put (l_currentSetting L)
                  (if can s then set_currentValue (newValue s) s
                   else set_newValue (currentValue s) s) L
           else let (accepted, L1) := l_call s L in
                l_put (l_currentSetting L)
                  (if accepted then set_currentValue (newValue s) s
                   else set_newValue (currentValue s) s) L1)
    | None => L
    end
  else l_set_editing true L.

(** What [settingsStop] does apart from the display. *)
Definition l_settingsStop (L : Logic) : Logic :=
  if l_editing L
  then
    match l_selected L with
    | Some s =>
        let s1 := set_newValue (currentValue s) s in
        let L1 := l_put (l_currentSetting L) s1 L in
        if liveUpdate s && can s && negb (newValue s =? currentValue s)
        then snd (l_call s1 L1)
        else L1
    | None => L
    end
  else L.

Definition l_createSetting (s : Setting) (L : Logic) : Logic :=
  match l_settings L with
  | Some a =>
      if Z.of_nat (length a) <? l_maxSettings L
      then mkLogic (l_maxSettings L) (Some (a ++ [s])) (l_currentSetting L)
                   (l_editing L) (l_world L) (l_calls L)
      else L
  | None => L
  end.

(** The public operations apart from the display. *)
Definition l_exec (o : Op) (L : Logic) : Logic :=
  match o with
  | Create text values nValues currentValue liveUpdate setFPtr can0 =>
      l_createSetting
        (mkSetting text values nValues currentValue currentValue setFPtr
                   liveUpdate can0) L
  | DisplayOn => L
  | DisplayOff => l_set_editing false L
  | Up => if l_editing L then l_scrollValue 1 L else l_scrollSetting 1 L
  | Down =>
      if l_editing L then l_scrollValue (-1) L else l_scrollSetting (-1) L
  | OK => l_settingsOK L
  | Stop => l_settingsStop L
  end.

(** Entry [t] is an empty line, and entry [t] is a setting with a name. *)
Definition separator (a : list Setting) (t : Z) : Prop :=
  exists s, index a t = Some s /\ name s = None.

Definition named (a : list Setting) (t : Z) : Prop :=
  exists s, index a t = Some s /\ name s <> None.

(** From [i] the search in direction [d] ends at [j]: [j] is the first
    named entry on that side of [i]. *)
Definition next_named (d : Z) (a : list Setting) (i j : Z) : Prop :=
  exists K, 1 <= K /\ j = i + K * d /\ named a j /\
            forall k, 0 < k < K -> separator a (i + k * d).

(** The machines the public operations lead to after [initSettings]. *)
Definition reachable (m : Machine) : Prop :=
  exists n mallocOK w r m0 os,
    initSettings n mallocOK (boot w) = Some (r, m0) /\ run os m0 = Some m.

(** The cursor is on a setting with a name, or still where it started. *)
Definition cursor_ok (L : Logic) : Prop :=
  l_currentSetting L = 0 \/
  named (entries (l_settings L)) (l_currentSetting L).

(** From [L] to [L'] the cursor has stayed and every named entry is still
    a named entry. *)
Definition keeps_names (L L' : Logic) : Prop :=
  l_currentSetting L' = l_currentSetting L /\
  forall t, named (entries (l_settings L)) t ->
            named (entries (l_settings L')) t.

(** Every setting but the one being edited has [newValue] equal to
    [currentValue]. *)
Definition settled (L : Logic) : Prop :=
  forall i s,
    index (entries (l_settings L)) i = Some s ->
    (l_editing L = true -> i <> l_currentSetting L) ->
    newValue s = currentValue s.

(** From [L] to [L'] the mode and the cursor have stayed, and so has every
    entry but the one under the cursor. *)
Definition same_others (L L' : Logic) : Prop :=
  l_editing L' = l_editing L /\
  l_currentSetting L' = l_currentSetting L /\
  forall i, i <> l_currentSetting L ->
            index (entries (l_settings L')) i =
            index (entries (l_settings L)) i.

(** A run of events each of which moved the cursor. *)
Inductive moves : list Op -> Machine -> Machine -> Prop :=
| moves_nil m : moves [] m m
| moves_cons o os m r m1 m2 :
    exec o m = Some (r, m1) ->
    currentSetting m1 <> currentSetting m ->
    moves os m1 m2 ->
    moves (o :: os) m m2.

(** The [currentValue] of every setting, in the order of creation. *)
Definition currentValues (m : Machine) : list Z :=
  map currentValue (entries (settings m)).

(** Entry [j] is among the lines on the display. *)
Definition in_window (m : Machine) (j : Z) : bool :=
  (topSetting m <=? j) && (j <? topSetting m + TFT_LINES).

(** The entry of [settings] under the cursor. *)
Definition selected (m : Machine) : option Setting :=
  match settings m with
  | Some a => index a (currentSetting m)
  | None => None
  end.

End Code.

(** ** A client and a menu to try the library on *)

Module Demo.

Local Open Scope string_scope.

(** The client counts the calls it receives; its functions with an even
    number accept every value, the others refuse. *)
Definition client (f : nat) (s : Setting) (seen : nat) : bool * nat :=
  (Nat.even f, S seen).

Definition IF : Op :=
  Create (Some "IF") ["0"; "4500"; "5000"] 3 1 true (Some 0%nat) false.

Definition line : Op := Create None [] 0 0 false None false.

Definition TAPS : Op :=
  Create (Some "TAPS") ["50"; "100"] 2 0 false (Some 2%nat) false.

Definition AGC : Op :=
  Create (Some "AGC") ["off"; "slow"; "fast"] 3 0 true (Some 1%nat) false.

(** The machine after [initSettings 32] and the operations [os]. *)
Definition after (os : list Op) : Machine nat :=
  match start nat 32 0%nat with
  | Some m0 =>
      match run nat client os m0 with
      | Some m => m
      | None => m0
      end
  | None => boot nat 0%nat
  end.

Definition menu : list Op := [IF; line; TAPS; AGC; DisplayOn].

Definition browsing : Machine nat := Eval vm_compute in after menu.

Definition editing_IF : Machine nat :=
  Eval vm_compute in after (menu ++ [OK]).

Definition IF_scrolled : Machine nat :=
  Eval vm_compute in after (menu ++ [OK; Up]).

Definition editing_TAPS : Machine nat :=
  Eval vm_compute in after (menu ++ [Up; OK]).

Definition TAPS_scrolled : Machine nat :=
  Eval vm_compute in after (menu ++ [Up; OK; Up]).

Definition back_at_IF : Machine nat :=
  Eval vm_compute in after (menu ++ [Up; Up; Down; Down]).

(** One setting only, so that the cursor has nowhere to go. *)
Definition single : Machine nat :=
  Eval vm_compute in after [TAPS; DisplayOn].

(** More settings than the display has lines, the cursor on the last
    line of the window: once with the display in use, once without. *)
Definition long_menu : list Op := repeat TAPS 17.

Definition lit : Machine nat :=
  Eval vm_compute in after (long_menu ++ [DisplayOn] ++ repeat Up 15).

Definition dark : Machine nat :=
  Eval vm_compute in after (long_menu ++ repeat Up 15).

End Demo.

(** ** Notions for the rest of the library *)

(** The display operations in a trace, oldest first. *)
Definition drawn (t : list Event) : list Event :=
  List.filter (fun e => negb (is_call e)) t.

(** A computation whose every outcome is related to its start by [R]. *)
Definition keeps (World : Type) (R : Machine World -> Machine World -> Prop)
    {A : Type} (c : M World A) : Prop :=
  forall m a m', c m = Some (a, m') -> R m m'.

(** A machine that may not use the display still may not afterwards, and
    the display has seen nothing new. *)
Definition stays_dark (World : Type) (m m' : Machine World) : Prop :=
  canUseDisplay m = false ->
  canUseDisplay m' = false /\ drawn (trace m') = drawn (trace m).

(** The entry [createSetting] writes for a request, and the request as an
    operation. *)
Definition fresh (s : Setting) : Setting := set_newValue (currentValue s) s.

Definition Create_of (s : Setting) : Op :=
  Create (name s) (values s) (nValues s) (currentValue s) (liveUpdate s)
         (fPtr s) (can s).

(** Both indices of a setting lie inside its array of values. *)
Definition bounded (s : Setting) : Prop :=
  0 <= currentValue s < nValues s /\ 0 <= newValue s < nValues s.

(** [s'] is [s] up to the fields the menu works on ([currentValue],
    [newValue] and [can]). *)
Definition same_setting (s s' : Setting) : Prop :=
  name s' = name s /\ values s' = values s /\ nValues s' = nValues s /\
  fPtr s' = fPtr s /\ liveUpdate s' = liveUpdate s.

(** A setting with a name can be shown, scrolled and reported: its
    indices are inside, [nValues] does not exceed the array of values, and
    there is a function to call. *)
Definition sound (s : Setting) : Prop :=
  name s <> None ->
  bounded s /\ nValues s <= Z.of_nat (length (values s)) /\ fPtr s <> None.


(** The machines on which the library stays inside its arrays: storage
    that holds no more than [maxSettings] settings, all of them sound, the
    cursor at 0 or on a name, on a name during an edit, and a window that
    starts at an index of the array. *)
Definition l_well_formed (World : Type) (L : Logic World) : Prop :=
  exists a,
    l_settings World L = Some a /\
    Z.of_nat (length a) <= l_maxSettings World L /\
    Forall sound a /\
    cursor_ok World L /\
    (l_editing World L = true -> named a (l_currentSetting World L)).

Definition well_formed (World : Type) (m : Machine World) : Prop :=
  l_well_formed World (logic World m) /\ 0 <= topSetting m.


(** The window has not moved. *)
Definition same_window (World : Type) (m m' : Machine World) : Prop :=
  topSetting m' = topSetting m.

(** A setting whose line can be drawn: with a name it has a value at
    [newValue]. *)
Definition readable (s : Setting) : Prop :=
  name s <> None -> is_Some (index (values s) (newValue s)).

(** What one line of a full redraw sends to the display: the name at
    column 2 and the value at column 19, or the blank line. *)
Definition line_ops (row : Z) (s : Setting) : list Event :=
  match name s with
  | Some t =>
      printAt_ops 2 row t false WHITE BLACK 0 ++
      match index (values s) (newValue s) with
      | Some v =>
          printAt_ops 19 row v false WHITE BLACK
            (to_int (to_size_t (TFT_CHARS - 19 - strlen v)))
      | None => []
      end
  | None => printAt_ops 0 row blank_line true WHITE BLACK 0
  end.

Fixpoint lines_ops (row : Z) (l : list Setting) : list Event :=
  match l with
  | [] => []
  | s :: l' => line_ops row s ++ lines_ops (row + 1) l'
  end.

(** The settings a window that starts at [first] has room for. *)
Definition shown (first : Z) (a : list Setting) : list Setting :=
  take (Z.to_nat TFT_LINES) (drop (Z.to_nat first) a).

(** ** More machines to try the library on *)

Module Tour.

Local Open Scope string_scope.

(** Room for two settings, and three requests. *)
Definition small : Machine nat := mkMachine nat false 2 (Some []) 0 0 false 0%nat [].

Definition IF : Setting :=
  mkSetting (Some "IF") ["0"; "4500"; "5000"] 3 1 1 (Some 0%nat) true false.

Definition TAPS : Setting :=
  mkSetting (Some "TAPS") ["50"; "100"] 2 0 0 (Some 2%nat) false false.

Definition AGC : Setting :=
  mkSetting (Some "AGC") ["off"; "slow"; "fast"] 3 0 0 (Some 1%nat) true false.

Definition requests : list Setting := [IF; TAPS; AGC].

(** The machine before any setting exists. *)
Definition empty : Machine nat := Eval vm_compute in Demo.after [].

(** The long menu of [Demo.dark] once the display has been taken. *)
Definition relit : Machine nat :=
  Eval vm_compute in
    Demo.after (Demo.long_menu ++ repeat Up 15 ++ [DisplayOn]).

(** The demo menu with the cursor moved from IF to TAPS. *)
Definition at_TAPS : Machine nat :=
  Eval vm_compute in Demo.after (Demo.menu ++ [Up]).

(** [Demo.lit] after one more Up: the cursor has left the window. *)
Definition window_moved : Machine nat :=
  Eval vm_compute in
    Demo.after (Demo.long_menu ++ [DisplayOn] ++ repeat Up 16).

End Tour.

Arguments index : simpl never.
Arguments store : simpl never.

(** ** Arrays, traces and the monad *)

Lemma index_Some {A : Type} (a : list A) (i : Z) (x : A) :
  index a i = Some x -> 0 <= i < Z.of_nat (length a).
Proof.
  unfold index. destruct (Z.ltb_spec i 0) as [|Hi]; [discriminate|].
  intros H. apply lookup_lt_Some in H. lia.
Qed.

Lemma index_inside {A : Type} (a : list A) (i : Z) :
  0 <= i < Z.of_nat (length a) -> exists x, index a i = Some x.
Proof.
  intros Hi. unfold index. destruct (Z.ltb_spec i 0) as [|_]; [lia|].
  destruct (lookup_lt_is_Some_2 a (Z.to_nat i)) as [x Hx]; [lia|eauto].
Qed.

Lemma index_store_eq {A : Type} (a : list A) (i : Z) (x y : A) :
  index a i = Some x -> index (store a i y) i = Some y.
Proof.
  unfold index, store. destruct (i <? 0); [discriminate|].
  intros H. apply list_lookup_insert_eq. eapply lookup_lt_Some; eauto.
Qed.

Lemma index_store_ne {A : Type} (a : list A) (i j : Z) (y : A) :
  0 <= i -> i <> j -> index (store a i y) j = index a j.
Proof.
  intros Hi Hij. unfold index, store. destruct (Z.ltb_spec j 0); [done|].
  apply list_lookup_insert_ne. lia.
Qed.


Lemma index_app_l {A : Type} (a b : list A) (i : Z) (x : A) :
  index a i = Some x -> index (a ++ b) i = Some x.
Proof.
  unfold index. destruct (i <? 0); [done|]. intros H.
  rewrite lookup_app_l; [done|]. eapply lookup_lt_Some; eauto.
Qed.

Lemma map_store {A B : Type} (f : A -> B) (a : list A) (i : Z) (x y : A) :
  index a i = Some x -> f y = f x -> map f (store a i y) = map f a.
Proof.
  unfold index, store. destruct (i <? 0); [discriminate|].
  generalize (Z.to_nat i) as n. clear i.
  induction a as [|z a IH]; intros [|n] Hx Hf; simpl in *; try done.
  - injection Hx as ->. by rewrite Hf.
  - f_equal. by apply IH.
Qed.

Lemma calls_app (t u : list Event) : calls (t ++ u) = calls t ++ calls u.
Proof. apply List.filter_app. Qed.

Lemma calls_repeat_Print (t : string) (n : nat) : calls (repeat (Print t) n) = [].
Proof. induction n; simpl; auto. Qed.

Lemma calls_printAt_ops x y t clean fg bg leading :
  calls (printAt_ops x y t clean fg bg leading) = [].
Proof.
  unfold printAt_ops. rewrite !calls_app, calls_repeat_Print.
  by destruct clean.
Qed.

(** * Properties *)

Section Properties.

Variable World : Type.
Variable callback : nat -> Setting -> World -> bool * World.

Local Abbreviation Machine := (Machine World).

Lemma log_nil (m : Machine) : log [] m = m.
Proof. destruct m. unfold log. simpl. by rewrite app_nil_r. Qed.

Lemma log_log (es1 es2 : list Event) (m : Machine) :
  log es2 (log es1 m) = log (es1 ++ es2) m.
Proof. unfold log. simpl. by rewrite app_assoc. Qed.

Lemma paints_refl (m : Machine) : paints World m m.
Proof. exists []. by rewrite log_nil. Qed.

Lemma paints_trans (m1 m2 m3 : Machine) :
  paints World m1 m2 -> paints World m2 m3 -> paints World m1 m3.
Proof.
  intros (es1 & -> & H1) (es2 & -> & H2). exists (es1 ++ es2).
  by rewrite log_log, calls_app, H1, H2.
Qed.

Lemma paints_log (es : list Event) (m : Machine) :
  calls es = [] -> paints World m (log es m).
Proof. intros H. by exists es. Qed.

(** ** The display functions only paint *)

Lemma printAt_paints x y text clean fg bg leading (m m' : Machine) r :
  printAt World x y text clean fg bg leading m = Some (r, m') ->
  r = true /\ paints World m m'.
Proof.
  unfold printAt, bind, get, emit, modify, ret, undefined.
  destruct (canUseDisplay m); simpl.
  - destruct text as [t|].
    + intros [= <- <-]. split; [done|].
      apply paints_log, calls_printAt_ops.
    + destruct clean; [done|]. intros [= <- <-]. split; [done|apply paints_refl].
  - intros [= <- <-]. split; [done|apply paints_refl].
Qed.

Lemma displayName_paints i row clean fg bg (m m' : Machine) r :
  displayName World i row clean fg bg m = Some (r, m') ->
  paints World m m' /\ (r = false -> settings m = None).
Proof.
  unfold displayName, getSetting, and_then, bind, get, lift, undefined.
  destruct (settings m) as [a|] eqn:Ha; simpl.
  - rewrite Ha. destruct (index a i) as [s|]; [|done].
    intros H. apply printAt_paints in H as [-> H]. by split.
  - intros [= <- <-]. split; [apply paints_refl|done].
Qed.

Lemma displayValue_paints i row clean fg bg (m m' : Machine) r :
  displayValue World i row clean fg bg m = Some (r, m') ->
  paints World m m' /\ (r = false -> settings m = None).
Proof.
  unfold displayValue, getSetting, and_then, bind, get, lift, undefined.
  destruct (settings m) as [a|] eqn:Ha; simpl.
  - rewrite Ha. destruct (index a i) as [s|]; [|done].
    destruct (index (values s) (newValue s)) as [v|]; [|done].
    intros H. apply printAt_paints in H as [-> H]. by split.
  - intros [= <- <-]. split; [apply paints_refl|done].
Qed.

Lemma highlightValue_paints (m m' : Machine) r :
  highlightValue World m = Some (r, m') ->
  paints World m m' /\ (r = false -> settings m = None).
Proof.
  unfold highlightValue, and_then, bind, get, ret.
  destruct (editing m).
  - unfold getSetting, bind, get, lift, undefined.
    destruct (settings m) as [a|] eqn:Ha; [|done].
    destruct (index a (currentSetting m)) as [s|]; [|done].
    intros H. apply displayValue_paints in H. by rewrite Ha in H.
  - apply displayValue_paints.
Qed.

Lemma selectSetting_paints on (m m' : Machine) r :
  selectSetting World on m = Some (r, m') -> r = true /\ paints World m m'.
Proof. unfold selectSetting, and_then, bind, get. apply printAt_paints. Qed.

Lemma displaySetting_paints i row clean fg bg (m m' : Machine) r :
  displaySetting World i row clean fg bg m = Some (r, m') ->
  paints World m m' /\ (r = false -> settings m = None).
Proof.
  unfold displaySetting, getSetting, and_then, bind, get, lift, undefined, ret.
  destruct (settings m) as [a|] eqn:Ha; simpl.
  - rewrite Ha. destruct (index a i) as [s|]; [|done].
    destruct (name s).
    + destruct (displayName _ _ _ _ _ _ m) as [[r1 m1]|] eqn:E1; [|done].
      apply displayName_paints in E1 as [P1 R1].
      destruct r1; [|specialize (R1 eq_refl); congruence].
      intros E2. apply displayValue_paints in E2 as [P2 R2].
      split; [by eapply paints_trans|].
      intros ->. destruct P1 as (es & -> & _).
      specialize (R2 eq_refl). simpl in R2. congruence.
    + destruct (printAt _ _ _ _ _ _ _ _ m) as [[r1 m1]|] eqn:E1; [|done].
      apply printAt_paints in E1 as [_ P1]. intros [= <- <-]. by split.
  - intros [= <- <-]. split; [apply paints_refl|done].
Qed.

Lemma displaySettings_loop_paints first todo : forall i result (m m' : Machine) r,
  displaySettings_loop World first i todo result m = Some (r, m') ->
  paints World m m' /\ (r = false -> result = false \/ settings m = None).
Proof.
  induction todo as [|todo IH]; intros i result m m' r; simpl.
  - intros [= <- <-]. split; [apply paints_refl|auto].
  - destruct result.
    + unfold and_then, bind.
      destruct (displaySetting _ _ _ _ _ _ m) as [[r1 m1]|] eqn:E1; [|done].
      apply displaySetting_paints in E1 as [P1 R1].
      intros E2. apply IH in E2 as [P2 R2].
      split; [by eapply paints_trans|].
      intros ->. destruct (R2 eq_refl) as [->|H2]; [auto|].
      destruct P1 as (es & -> & _). auto.
    + intros [= <- <-]. split; [apply paints_refl|auto].
Qed.

Lemma displaySettings_inv first (m m' : Machine) r :
  displaySettings World first m = Some (r, m') ->
  (canUseDisplay m = false /\ r = false /\ m' = m) \/
  (canUseDisplay m = true /\
   (exists m1, paints World m m1 /\ m' = set_topSetting first m1) /\
   (r = false -> settings m = None)).
Proof.
  unfold displaySettings, bind, get, emit, modify, ret.
  destruct (canUseDisplay m); simpl.
  - destruct (displaySettings_loop _ _ _ _ _ _) as [[r1 m1]|] eqn:E1; [|done].
    apply displaySettings_loop_paints in E1 as [P1 R1].
    intros [= <- <-]. right. split; [done|]. split.
    + exists m1. split; [|done].
      eapply paints_trans; [|exact P1]. by apply paints_log.
    + intros ->. by destruct (R1 eq_refl).
  - intros [= <- <-]. by left.
Qed.

Lemma highlightValue_run (m : Machine) a s v :
  settings m = Some a ->
  index a (currentSetting m) = Some s ->
  index (values s) (newValue s) = Some v ->
  exists m', highlightValue World m = Some (true, m') /\ paints World m m'.
Proof.
  intros Ha Hs Hv.
  destruct (highlightValue World m) as [[r m']|] eqn:E.
  - pose proof (highlightValue_paints _ _ _ E) as [P R].
    destruct r; [eauto|]. specialize (R eq_refl). congruence.
  - exfalso. revert E.
    unfold highlightValue, displayValue, getSetting, and_then, bind, get,
      lift, ret.
    destruct (editing m); rewrite ?Ha, ?Hs; simpl; rewrite ?Ha, ?Hs, ?Hv;
      simpl; rewrite ?Ha, ?Hs, ?Hv; simpl;
      unfold printAt, bind, get, emit, modify, ret;
      destruct (canUseDisplay m); simpl; discriminate.
Qed.

Local Arguments highlightValue : simpl never.
Local Arguments displaySettings : simpl never.
Local Arguments selectSetting : simpl never.

(** ** Scrolling the value of the selected setting *)

Lemma scrollValue_stay d (m : Machine) a s :
  settings m = Some a ->
  index a (currentSetting m) = Some s ->
  scrolled d (newValue s) (nValues s) = newValue s ->
  scrollValue World callback d m = Some (true, m).
Proof.
  intros Ha Hs Hd.
  unfold scrollValue, getSetting, bind, get, lift, ret. rewrite Ha. simpl.
  rewrite Ha, Hs, Hd, Z.eqb_refl. reflexivity.
Qed.

Lemma scrollValue_quiet d (m : Machine) a s v :
  settings m = Some a ->
  index a (currentSetting m) = Some s ->
  scrolled d (newValue s) (nValues s) <> newValue s ->
  index (values s) (scrolled d (newValue s) (nValues s)) = Some v ->
  liveUpdate s = false ->
  exists m',
    scrollValue World callback d m = Some (true, m') /\
    paints World
      (set_settings
         (Some (store a (currentSetting m)
                  (set_newValue (scrolled d (newValue s) (nValues s)) s))) m)
      m'.
Proof.
  intros Ha Hs Hd Hv Hl.
  set (nv := scrolled d (newValue s) (nValues s)) in *.
  set (m1 := set_settings
               (Some (store a (currentSetting m) (set_newValue nv s))) m).
  destruct (highlightValue_run m1 (store a (currentSetting m) (set_newValue nv s))
              (set_newValue nv s) v) as (m2 & E2 & P2);
    [done|by eapply index_store_eq|done|].
  exists m2. split; [|done].
  unfold scrollValue, getSetting, putSetting, bind, get, lift, ret, modify,
    and_then.
  rewrite Ha. simpl. rewrite Ha, Hs. fold nv.
  destruct (Z.eqb_spec nv (newValue s)) as [|_]; [done|]. simpl.
  rewrite Ha, Hs. fold m1. rewrite E2, Hl. reflexivity.
Qed.

Lemma scrollValue_live d (m : Machine) a s v f accepted w :
  settings m = Some a ->
  index a (currentSetting m) = Some s ->
  scrolled d (newValue s) (nValues s) <> newValue s ->
  index (values s) (scrolled d (newValue s) (nValues s)) = Some v ->
  liveUpdate s = true ->
  fPtr s = Some f ->
  callback f (set_newValue (scrolled d (newValue s) (nValues s)) s) (world m)
    = (accepted, w) ->
  exists m1,
    paints World
      (set_settings
         (Some (store a (currentSetting m)
                  (set_newValue (scrolled d (newValue s) (nValues s)) s))) m)
      m1 /\
    scrollValue World callback d m =
      Some (true,
            set_settings
              (Some (store a (currentSetting m)
                       (set_can accepted
                          (set_newValue (scrolled d (newValue s) (nValues s)) s))))
              (log [Call f (set_newValue (scrolled d (newValue s) (nValues s)) s)
                      accepted]
                 (set_world w m1))).
Proof.
  intros Ha Hs Hd Hv Hl Hf Hcb.
  set (nv := scrolled d (newValue s) (nValues s)) in *.
  set (a1 := store a (currentSetting m) (set_newValue nv s)).
  set (m1 := set_settings (Some a1) m).
  assert (Hs1 : index a1 (currentSetting m) = Some (set_newValue nv s))
    by (by eapply index_store_eq).
  destruct (highlightValue_run m1 a1 (set_newValue nv s) v)
    as (m2 & E2 & P2); [done..|].
  exists m2. split; [done|].
  unfold scrollValue, getSetting, putSetting, callFPtr, bind, get, lift, ret,
    modify, and_then.
  rewrite Ha. simpl. rewrite Ha, Hs. fold nv.
  destruct (Z.eqb_spec nv (newValue s)) as [|_]; [done|]. simpl.
  rewrite Ha, Hs. fold a1 m1. rewrite E2, Hl.
  destruct P2 as (es & -> & Hes). simpl.
  rewrite Hs1. simpl. rewrite Hf.
  change (world (log es m1)) with (world m). rewrite Hcb. simpl. rewrite Hs1.
  unfold a1, store. by rewrite list_insert_insert_eq.
Qed.

(** ** Accepting *)

Lemma settingsOK_enter (m : Machine) a s v :
  settings m = Some a ->
  index a (currentSetting m) = Some s ->
  index (values s) (newValue s) = Some v ->
  editing m = false ->
  exists m',
    settingsOK World callback m = Some (true, m') /\
    paints World (set_editing true m) m'.
Proof.
  intros Ha Hs Hv He.
  destruct (highlightValue_run (set_editing true m) a s v)
    as (m2 & E2 & P2); [done..|].
  exists m2. split; [|done].
  unfold settingsOK, bind, get, ret, modify. rewrite He. simpl.
  by rewrite E2.
Qed.

Lemma settingsOK_same (m : Machine) a s v :
  settings m = Some a ->
  index a (currentSetting m) = Some s ->
  index (values s) (newValue s) = Some v ->
  editing m = true ->
  newValue s = currentValue s ->
  exists m',
    settingsOK World callback m = Some (true, m') /\
    paints World (set_editing false m) m'.
Proof.
  intros Ha Hs Hv He Hn.
  destruct (highlightValue_run (set_editing false m) a s v)
    as (m2 & E2 & P2); [done..|].
  exists m2. split; [|done].
  unfold settingsOK, getSetting, bind, get, lift, ret, modify.
  rewrite He, Ha, Hs, Hn, Z.eqb_refl. simpl. by rewrite E2.
Qed.

Lemma settingsOK_live (m : Machine) a s v :
  settings m = Some a ->
  index a (currentSetting m) = Some s ->
  editing m = true ->
  newValue s <> currentValue s ->
  liveUpdate s = true ->
  index (values s) (if can s then newValue s else currentValue s) = Some v ->
  exists m',
    settingsOK World callback m = Some (true, m') /\
    paints World
      (set_editing false
         (set_settings
            (Some (store a (currentSetting m)
                     (if can s then set_currentValue (newValue s) s
                      else set_newValue (currentValue s) s))) m))
      m'.
Proof.
  intros Ha Hs He Hn Hl Hv.
  unfold settingsOK, getSetting, putSetting, bind, get, lift, ret, modify.
  rewrite He, Ha, Hs, Hl. simpl.
  destruct (Z.eqb_spec (newValue s) (currentValue s)) as [|_]; [done|]. simpl.
  destruct (can s); simpl; rewrite Ha, Hs; simpl;
    match goal with
    | |- context [highlightValue World ?m0] =>
        edestruct (highlightValue_run m0) as (m2 & E2 & P2);
          [reflexivity|eapply index_store_eq; exact Hs|exact Hv|];
          exists m2; by rewrite E2
    end.
Qed.

Lemma settingsOK_ask (m : Machine) a s v f accepted w :
  settings m = Some a ->
  index a (currentSetting m) = Some s ->
  editing m = true ->
  newValue s <> currentValue s ->
  liveUpdate s = false ->
  fPtr s = Some f ->
  callback f s (world m) = (accepted, w) ->
  index (values s) (if accepted then newValue s else currentValue s) = Some v ->
  exists m',
    settingsOK World callback m = Some (true, m') /\
    paints World
      (set_editing false
         (set_settings
            (Some (store a (currentSetting m)
                     (if accepted then set_currentValue (newValue s) s
                      else set_newValue (currentValue s) s)))
            (log [Call f s accepted] (set_world w m))))
      m'.
Proof.
  intros Ha Hs He Hn Hl Hf Hcb Hv.
  unfold settingsOK, getSetting, putSetting, callFPtr, bind, get, lift, ret,
    modify.
  rewrite He, Ha, Hs, Hl. simpl.
  destruct (Z.eqb_spec (newValue s) (currentValue s)) as [|_]; [done|]. simpl.
  rewrite Hf, Hcb. simpl.
  destruct accepted; simpl; rewrite Ha, Hs; simpl;
    match goal with
    | |- context [highlightValue World ?m0] =>
        edestruct (highlightValue_run m0) as (m2 & E2 & P2);
          [reflexivity|eapply index_store_eq; exact Hs|exact Hv|];
          exists m2; by rewrite E2
    end.
Qed.

(** ** Cancelling *)


Lemma settingsStop_quiet (m : Machine) a s :
  settings m = Some a ->
  index a (currentSetting m) = Some s ->
  editing m = true ->
  liveUpdate s && can s && negb (newValue s =? currentValue s) = false ->
  settingsStop World callback m =
    Some (true,
          set_settings
            (Some (store a (currentSetting m)
                     (set_newValue (currentValue s) s))) m).
Proof.
  intros Ha Hs He Hr.
  unfold settingsStop, resetNewValue, getSetting, putSetting, and_then, bind,
    get, lift, ret, modify.
  rewrite He. simpl. rewrite Ha, Hs. simpl. by rewrite Ha, Hs, Hr.
Qed.

Lemma settingsStop_live (m : Machine) a s f accepted w :
  settings m = Some a ->
  index a (currentSetting m) = Some s ->
  editing m = true ->
  liveUpdate s && can s && negb (newValue s =? currentValue s) = true ->
  fPtr s = Some f ->
  callback f (set_newValue (currentValue s) s) (world m) = (accepted, w) ->
  settingsStop World callback m =
    Some (true,
          log [Call f (set_newValue (currentValue s) s) accepted]
            (set_world w
               (set_settings
                  (Some (store a (currentSetting m)
                           (set_newValue (currentValue s) s))) m))).
Proof.
  intros Ha Hs He Hr Hf Hcb.
  unfold settingsStop, resetNewValue, getSetting, putSetting, callFPtr,
    and_then, bind, get, lift, ret, modify.
  rewrite He. simpl. rewrite Ha, Hs. simpl. rewrite Ha, Hs, Hr. simpl.
  rewrite Hf. simpl. by rewrite Hcb.
Qed.

(** ** Up and Down by mode *)

Lemma exec_editing o d (m : Machine) :
  amount o = Some d -> editing m = true ->
  exec World callback o m = scrollValue World callback d m.
Proof.
  intros Ho He.
  destruct o; try discriminate; injection Ho as <-; simpl;
    unfold settingsUp, settingsDown, and_then, bind, get; by rewrite He.
Qed.

Lemma exec_browsing o d (m : Machine) :
  amount o = Some d -> editing m = false ->
  exec World callback o m = scrollSetting World d m.
Proof.
  intros Ho He.
  destruct o; try discriminate; injection Ho as <-; simpl;
    unfold settingsUp, settingsDown, and_then, bind, get; by rewrite He.
Qed.

Lemma selected_store (m : Machine) a i s s' :
  index a i = Some s -> currentSetting m = i ->
  settings m = Some (store a i s') -> selected World m = Some s'.
Proof.
  intros Hs Hc Ha. unfold selected. rewrite Ha, Hc.
  by eapply index_store_eq.
Qed.

(** ** Live update *)

(** C2. For a selected setting with [liveUpdate]: an Up or Down while
    editing that changes [newValue] calls the client's function exactly
    once, on the setting with the new [newValue], and stores the answer in
    [can] without taking the change back; and OK while editing with
    [newValue <> currentValue] calls nothing, sets [currentValue] to
    [newValue] when [can] holds and [newValue] to [currentValue]
    otherwise. *)
Theorem live_update_scroll_then_accept :
  (forall o d (m : Machine) a s v f accepted w,
      amount o = Some d ->
      editing m = true ->
      settings m = Some a ->
      index a (currentSetting m) = Some s ->
      liveUpdate s = true ->
      fPtr s = Some f ->
      scrolled d (newValue s) (nValues s) <> newValue s ->
      index (values s) (scrolled d (newValue s) (nValues s)) = Some v ->
      callback f (set_newValue (scrolled d (newValue s) (nValues s)) s)
               (world m) = (accepted, w) ->
      exists m',
        exec World callback o m = Some (true, m') /\
        calls (trace m') =
          calls (trace m) ++
          [Call f (set_newValue (scrolled d (newValue s) (nValues s)) s)
                accepted] /\
        settings m' =
          Some (store a (currentSetting m)
                  (set_can accepted
                     (set_newValue (scrolled d (newValue s) (nValues s)) s))) /\
        world m' = w /\
        editing m' = true /\
        currentSetting m' = currentSetting m) /\
  (forall (m : Machine) a s v,
      editing m = true ->
      settings m = Some a ->
      index a (currentSetting m) = Some s ->
      liveUpdate s = true ->
      newValue s <> currentValue s ->
      index (values s) (if can s then newValue s else currentValue s)
        = Some v ->
      exists m',
        exec World callback OK m = Some (true, m') /\
        calls (trace m') = calls (trace m) /\
        world m' = world m /\
        settings m' =
          Some (store a (currentSetting m)
                  (if can s then set_currentValue (newValue s) s
                   else set_newValue (currentValue s) s)) /\
        currentSetting m' = currentSetting m /\
        editing m' = false).
Proof.
  split.
  - intros o d m a s v f accepted w Ho He Ha Hs Hl Hf Hd Hv Hcb.
    rewrite (exec_editing o d m Ho He).
    destruct (scrollValue_live d m a s v f accepted w)
      as (m1 & (es & -> & Hes) & ->); [done..|].
    eexists. split; [reflexivity|]. simpl.
    rewrite !calls_app, Hes, app_nil_r. auto 10.
  - intros m a s v He Ha Hs Hl Hn Hv. simpl.
    destruct (settingsOK_live m a s v) as (m' & -> & (es & -> & Hes));
      [done..|].
    eexists. split; [reflexivity|]. simpl.
    rewrite calls_app, Hes, app_nil_r. auto 10.
Qed.

(** ** Update on acceptance *)

(** C3. For a selected setting without [liveUpdate]: Up and Down while
    editing never call the client's function; OK while editing calls it
    exactly once when [newValue <> currentValue] and not at all otherwise;
    after an accepting answer [currentValue] is the former [newValue],
    after a refusing one [currentValue] is as before and [newValue] is
    back at [currentValue]. *)
Theorem deferred_update_scroll_then_accept :
  (forall o d (m : Machine) a s v,
      amount o = Some d ->
      editing m = true ->
      settings m = Some a ->
      index a (currentSetting m) = Some s ->
      liveUpdate s = false ->
      index (values s) (scrolled d (newValue s) (nValues s)) = Some v ->
      exists m',
        exec World callback o m = Some (true, m') /\
        calls (trace m') = calls (trace m) /\
        world m' = world m) /\
  (forall (m : Machine) a s v f accepted w,
      editing m = true ->
      settings m = Some a ->
      index a (currentSetting m) = Some s ->
      liveUpdate s = false ->
      newValue s <> currentValue s ->
      fPtr s = Some f ->
      callback f s (world m) = (accepted, w) ->
      index (values s) (if accepted then newValue s else currentValue s)
        = Some v ->
      exists m',
        exec World callback OK m = Some (true, m') /\
        calls (trace m') = calls (trace m) ++ [Call f s accepted] /\
        world m' = w /\
        settings m' =
          Some (store a (currentSetting m)
                  (if accepted then set_currentValue (newValue s) s
                   else set_newValue (currentValue s) s)) /\
        currentSetting m' = currentSetting m /\
        editing m' = false) /\
  (forall (m : Machine) a s v,
      editing m = true ->
      settings m = Some a ->
      index a (currentSetting m) = Some s ->
      liveUpdate s = false ->
      newValue s = currentValue s ->
      index (values s) (newValue s) = Some v ->
      exists m',
        exec World callback OK m = Some (true, m') /\
        calls (trace m') = calls (trace m) /\
        world m' = world m /\
        settings m' = settings m /\
        currentSetting m' = currentSetting m /\
        editing m' = false).
Proof.
  split; [|split].
  - intros o d m a s v Ho He Ha Hs Hl Hv.
    rewrite (exec_editing o d m Ho He).
    destruct (Z.eq_dec (scrolled d (newValue s) (nValues s)) (newValue s))
      as [Hd|Hd].
    + rewrite (scrollValue_stay d m a s Ha Hs Hd). eauto.
    + destruct (scrollValue_quiet d m a s v)
        as (m' & -> & (es & -> & Hes)); [done..|].
      eexists. split; [reflexivity|]. simpl.
      rewrite calls_app, Hes, app_nil_r. auto 10.
  - intros m a s v f accepted w He Ha Hs Hl Hn Hf Hcb Hv. simpl.
    destruct (settingsOK_ask m a s v f accepted w)
      as (m' & -> & (es & -> & Hes)); [done..|].
    eexists. split; [reflexivity|]. simpl.
    rewrite !calls_app, Hes, app_nil_r. auto 10.
  - intros m a s v He Ha Hs Hl Hn Hv. simpl.
    destruct (settingsOK_same m a s v) as (m' & -> & (es & -> & Hes));
      [done..|].
    eexists. split; [reflexivity|]. simpl.
    rewrite calls_app, Hes, app_nil_r. auto 10.
Qed.

(** ** Cancel *)

(** C4. Stop while editing sets the selected setting's [newValue] to its
    [currentValue] and leaves [currentValue] alone, whatever [liveUpdate]
    is.  When the setting is live, [can] holds and [newValue] differed
    from [currentValue], the client's function is called once more, on the
    setting with the value taken back, and its answer is dropped ([can]
    keeps its value); in every other case nothing is called. *)
Theorem cancel_restores_newValue (m : Machine) a s f accepted w :
  editing m = true ->
  settings m = Some a ->
  index a (currentSetting m) = Some s ->
  (liveUpdate s && can s && negb (newValue s =? currentValue s) = true ->
   fPtr s = Some f) ->
  callback f (set_newValue (currentValue s) s) (world m) = (accepted, w) ->
  exists m' s',
    exec World callback Stop m = Some (true, m') /\
    settings m' = Some (store a (currentSetting m) s') /\
    s' = set_newValue (currentValue s) s /\
    newValue s' = currentValue s' /\
    currentValue s' = currentValue s /\
    can s' = can s /\
    calls (trace m') =
      calls (trace m) ++
      (if liveUpdate s && can s && negb (newValue s =? currentValue s)
       then [Call f s' accepted] else []) /\
    world m' =
      (if liveUpdate s && can s && negb (newValue s =? currentValue s)
       then w else world m) /\
    currentSetting m' = currentSetting m.
Proof.
  intros He Ha Hs Hf Hcb. simpl.
  destruct (liveUpdate s && can s && negb (newValue s =? currentValue s))
    eqn:Hr.
  - rewrite (settingsStop_live m a s f accepted w); auto.
    eexists _, _. split; [reflexivity|]. simpl.
    rewrite calls_app. auto 10.
  - rewrite (settingsStop_quiet m a s); auto.
    eexists _, _. split; [reflexivity|]. simpl.
    rewrite app_nil_r. auto 10.
Qed.

(** ** No wrap-around *)

Lemma scrolled_clamp d v n :
  d = 1 \/ d = -1 -> 0 <= v < n ->
  scrolled d v n = Z.max 0 (Z.min (n - 1) (v + d)).
Proof.
  intros Hd Hv. unfold scrolled.
  destruct Hd as [-> | ->]; simpl;
    destruct (Z.ltb_spec v (n - 1)); destruct (Z.gtb_spec v 0); simpl; lia.
Qed.

Lemma amount_unit o d : amount o = Some d -> d = 1 \/ d = -1.
Proof. destruct o; intros [= <-]; auto. Qed.

(** C6. Up and Down while editing move the selected setting's [newValue]
    by +1 and -1, kept inside [0, nValues - 1]: at the last value Up
    changes nothing, at value 0 Down changes nothing, and the value never
    wraps around. *)
Theorem scroll_value_is_clamped o d (m : Machine) a s :
  amount o = Some d ->
  editing m = true ->
  settings m = Some a ->
  index a (currentSetting m) = Some s ->
  0 <= newValue s < nValues s ->
  nValues s = Z.of_nat (length (values s)) ->
  (liveUpdate s = true -> is_Some (fPtr s)) ->
  exists m' s',
    exec World callback o m = Some (true, m') /\
    selected World m' = Some s' /\
    newValue s' = Z.max 0 (Z.min (nValues s - 1) (newValue s + d)) /\
    currentValue s' = currentValue s /\
    (o = Up -> newValue s = nValues s - 1 -> m' = m) /\
    (o = Down -> newValue s = 0 -> m' = m).
Proof.
  intros Ho He Ha Hs Hv Hn Hf.
  pose proof (amount_unit o d Ho) as Hd.
  pose proof (scrolled_clamp d (newValue s) (nValues s) Hd Hv) as Hc.
  rewrite (exec_editing o d m Ho He).
  destruct (Z.eq_dec (scrolled d (newValue s) (nValues s)) (newValue s))
    as [Hsame|Hmoved].
  - rewrite (scrollValue_stay d m a s Ha Hs Hsame).
    exists m, s. unfold selected. rewrite Ha.
    repeat split; auto. lia.
  - destruct (index_inside (values s) (scrolled d (newValue s) (nValues s)))
      as [v Hread]; [lia|].
    assert (Hup : o = Up -> newValue s <> nValues s - 1).
    { intros ->. injection Ho as <-. lia. }
    assert (Hdown : o = Down -> newValue s <> 0).
    { intros ->. injection Ho as <-. lia. }
    destruct (liveUpdate s) eqn:Hl.
    + destruct (Hf eq_refl) as [f Hfp].
      destruct (callback f (set_newValue
                  (scrolled d (newValue s) (nValues s)) s) (world m))
        as [accepted w] eqn:Hcb.
      destruct (scrollValue_live d m a s v f accepted w)
        as (m1 & (es & -> & Hes) & ->); [done..|].
      eexists _, _. split; [reflexivity|].
      split; [eapply selected_store; [exact Hs|reflexivity|reflexivity]|].
      simpl. split; [done|]. split; [done|].
      split; intros Ho' Hb; [by destruct (Hup Ho')|by destruct (Hdown Ho')].
    + destruct (scrollValue_quiet d m a s v)
        as (m' & -> & (es & -> & Hes)); [done..|].
      eexists _, _. split; [reflexivity|].
      split; [eapply selected_store; [exact Hs|reflexivity|reflexivity]|].
      simpl. split; [done|]. split; [done|].
      split; intros Ho' Hb; [by destruct (Hup Ho')|by destruct (Hdown Ho')].
Qed.

(** ** The display never reaches the menu's own state *)

Lemma paints_logic (m m' : Machine) :
  paints World m m' -> logic World m' = logic World m.
Proof.
  intros (es & -> & Hes). unfold logic. simpl.
  by rewrite calls_app, Hes, app_nil_r.
Qed.

Lemma displaySettings_logic first (m m' : Machine) r :
  displaySettings World first m = Some (r, m') ->
  logic World m' = logic World m.
Proof.
  intros H. apply displaySettings_inv in H
    as [(_ & _ & ->)|(_ & (m1 & P & ->) & _)]; [done|].
  by apply paints_logic in P.
Qed.

Lemma loop_search d fuel : forall n (m : Machine),
  scrollSetting_loop World d n fuel m =
  match search d (entries (settings m)) n fuel with
  | Some found => Some (found, m)
  | None => None
  end.
Proof.
  induction fuel as [|fuel IH]; intros n m; simpl; [done|].
  unfold getSetting, bind, get, lift, undefined, ret, nSettings.
  destruct (settings m) as [a|] eqn:Ha; simpl.
  - destruct ((d >? 0) && (n <? Z.of_nat (length a) - 1)
              || (d <? 0) && (n >? 0)); [|done].
    rewrite ?Ha. destruct (index a (n + d)) as [s|]; [|done].
    destruct (name s); [done|]. rewrite IH. by rewrite Ha.
  - destruct (_ || _); [|done]. rewrite Ha. unfold index.
    destruct (_ <? _); [done|]. by rewrite lookup_nil.
Qed.

Lemma scrollValue_logic d (m m' : Machine) r :
  scrollValue World callback d m = Some (r, m') ->
  logic World m' = l_scrollValue World callback d (logic World m).
Proof.
  unfold scrollValue, l_scrollValue, l_selected, getSetting, putSetting,
    callFPtr, and_then, bind, get, lift, ret, modify, undefined.
  destruct (settings m) as [a|] eqn:Ha; simpl; rewrite ?Ha.
  - destruct (index a (currentSetting m)) as [s|] eqn:Hs; [|done].
    set (nv := scrolled d (newValue s) (nValues s)).
    destruct (nv =? newValue s); simpl; [by intros [= <- <-]|].
    rewrite ?Ha, ?Hs.
    destruct (highlightValue World _) as [[r1 m1]|] eqn:E1; [|done].
    apply highlightValue_paints in E1 as [(es & -> & Hes) _]. simpl.
    unfold l_put, l_call. simpl. rewrite Ha.
    destruct (liveUpdate s); simpl.
    + rewrite (index_store_eq a _ s _ Hs). simpl.
      destruct (fPtr s) as [f|]; [|done]. simpl.
      destruct (callback f (set_newValue nv s) (world m)) as [accepted w].
      simpl. rewrite (index_store_eq a _ s _ Hs).
      intros [= <- <-]. unfold logic. simpl.
      rewrite !calls_app, Hes, app_nil_r.
      unfold store. by rewrite list_insert_insert_eq.
    + intros [= <- <-]. unfold logic. simpl.
      by rewrite calls_app, Hes, app_nil_r.
  - destruct (currentSetting m =? 0); [|done]. by intros [= <- <-].
Qed.

(** ** Moving the cursor *)

Lemma nSettings_entries (m : Machine) :
  Z.to_nat (nSettings m) = length (entries (settings m)).
Proof. unfold nSettings, entries. destruct (settings m); simpl; lia. Qed.

Lemma search_Some_entries d a fuel : forall n j,
  search d a n fuel = Some (Some j) -> a <> [].
Proof.
  induction fuel as [|fuel IH]; intros n j; simpl; [done|].
  destruct (_ || _); [|done].
  destruct (index a (n + d)) as [s|] eqn:Hs; [|done].
  intros _ ->. unfold index in Hs. destruct (_ <? _); [done|].
  by rewrite lookup_nil in Hs.
Qed.

(** ** The search never runs out of fuel *)

Lemma search_S d a n fuel :
  search d a n (S fuel) =
  if (d >? 0) && (n <? Z.of_nat (length a) - 1) || (d <? 0) && (n >? 0)
  then match index a (n + d) with
       | Some s =>
           match name s with
           | None => search d a (n + d) fuel
           | Some _ => Some (Some (n + d))
           end
       | None => None
       end
  else Some None.
Proof. reflexivity. Qed.

Lemma search_more_fuel d a fuel : forall n found fuel',
  search d a n fuel = Some found -> (fuel <= fuel')%nat ->
  search d a n fuel' = Some found.
Proof.
  induction fuel as [|fuel IH]; intros n found fuel'; [done|].
  rewrite search_S. intros H Hle. destruct fuel' as [|fuel']; [lia|].
  rewrite search_S. destruct (_ || _); [|done].
  destruct (index a (n + d)) as [s|]; [|done].
  destruct (name s); [done|]. apply IH; [done|lia].
Qed.

Lemma search_ends d a fuel : forall n,
  d = 1 \/ d = -1 ->
  (Z.to_nat (if d >? 0 then Z.of_nat (length a) - 1 - n else n) < fuel)%nat ->
  search d a n fuel = None ->
  forall fuel', search d a n fuel' = None.
Proof.
  induction fuel as [|fuel IH]; intros n Hd Hfuel; [lia|].
  rewrite search_S.
  destruct (_ || _) eqn:Hgo; [|done].
  destruct (index a (n + d)) as [s|] eqn:Hs.
  - destruct (name s) eqn:Hn; [done|].
    intros H [|fuel']; [done|]. rewrite search_S, Hgo, Hs, Hn.
    apply IH; [done| |done]. apply index_Some in Hs.
    destruct Hd as [-> | ->]; simpl in *; lia.
  - intros _ [|fuel']; [done|]. by rewrite search_S, Hgo, Hs.
Qed.

Lemma search_first_read d a n fuel :
  index a (n + d) = None -> search d a n (S fuel) = search d a n 1.
Proof. intros H. rewrite !search_S. destruct (_ || _); [|done]. by rewrite H. Qed.

Lemma search_fuel_enough d a n fuel :
  d = 1 \/ d = -1 -> (length a < fuel)%nat ->
  search d a n fuel = search d a n (S (length a)).
Proof.
  intros Hd Hfuel.
  destruct (search d a n (S (length a))) as [found|] eqn:H.
  - apply (search_more_fuel d a _ n found fuel H). lia.
  - destruct (index a (n + d)) as [s|] eqn:Hs.
    + apply index_Some in Hs.
      apply (search_ends d a (S (length a)) n); [done| |done].
      destruct Hd as [-> | ->]; simpl; lia.
    + destruct fuel as [|fuel]; [lia|].
      rewrite (search_first_read d a n fuel Hs).
      by rewrite (search_first_read d a n (length a) Hs) in H.
Qed.

Lemma scrollSetting_loop_fuel d n fuel (m : Machine) :
  d = 1 \/ d = -1 ->
  (Z.to_nat (nSettings m) < fuel)%nat ->
  scrollSetting_loop World d n fuel m =
  scrollSetting_loop World d n (S (Z.to_nat (nSettings m))) m.
Proof.
  intros Hd Hfuel. rewrite !loop_search, nSettings_entries in *.
  by rewrite (search_fuel_enough d _ n fuel Hd Hfuel).
Qed.

Lemma scrollSetting_inv d (m m' : Machine) r :
  scrollSetting World d m = Some (r, m') ->
  match search d (entries (settings m)) (currentSetting m)
               (S (length (entries (settings m)))) with
  | None => False
  | Some None => r = false /\ m' = m
  | Some (Some j) =>
      if j =? currentSetting m then r = true /\ m' = m
      else
        currentSetting m' = j /\
        logic World m' = logic World (set_currentSetting j m) /\
        canUseDisplay m' = canUseDisplay m /\
        r = in_window World m j || canUseDisplay m /\
        topSetting m' =
          (if in_window World m j || negb (canUseDisplay m) then topSetting m
           else if j <? topSetting m then j else j - TFT_LINES + 1)
  end.
Proof.
  unfold scrollSetting, bind, get. rewrite loop_search, nSettings_entries.
  destruct (search _ _ _ _) as [[j|]|] eqn:Hfind; [| |done].
  - destruct (Z.eqb_spec j (currentSetting m)) as [Hj|Hj]; simpl.
    { by intros [= <- <-]. }
    assert (Ha : settings m <> None).
    { apply search_Some_entries in Hfind. by destruct (settings m). }
    unfold modify, ret, and_then.
    destruct (selectSetting World false m) as [[r1 m1]|] eqn:E1; [|done].
    apply selectSetting_paints in E1 as [_ (es1 & -> & Hes1)]. simpl.
    unfold in_window.
    destruct (Z.ltb_spec j (topSetting m)) as [Hlow|Hlow].
    + destruct (displaySettings World j _) as [[r2 m2]|] eqn:E2; [|done].
      destruct (selectSetting World true m2) as [[r3 m3]|] eqn:E3; [|done].
      apply selectSetting_paints in E3 as [_ P3].
      intros [= <- <-].
      replace (topSetting m <=? j) with false by (symmetry; apply Z.leb_gt; lia).
      simpl.
      apply displaySettings_inv in E2
        as [(Hc & -> & ->)|(Hc & (m4 & P4 & ->) & Hr)]; simpl in Hc.
      * destruct P3 as (es3 & -> & Hes3). simpl. rewrite Hc. simpl.
        repeat split; try done. unfold logic. simpl.
        by rewrite !calls_app, Hes1, Hes3, !app_nil_r.
      * destruct P4 as (es4 & -> & Hes4). destruct P3 as (es3 & -> & Hes3).
        simpl. rewrite Hc. simpl.
        repeat split; try done.
        -- unfold logic. simpl.
           by rewrite !calls_app, Hes1, Hes3, Hes4, !app_nil_r.
        -- destruct r2; [done|]. by destruct (Ha (Hr eq_refl)).
    + replace (topSetting m <=? j) with true by (symmetry; apply Z.leb_le; lia).
      simpl.
      destruct (Z.geb_spec j (topSetting m + TFT_LINES)) as [Hhigh|Hhigh].
      * destruct (displaySettings World _ _) as [[r2 m2]|] eqn:E2; [|done].
        destruct (selectSetting World true m2) as [[r3 m3]|] eqn:E3; [|done].
        apply selectSetting_paints in E3 as [_ P3].
        intros [= <- <-].
        replace (j <? topSetting m + TFT_LINES) with false
          by (symmetry; apply Z.ltb_ge; lia).
        simpl.
        apply displaySettings_inv in E2
          as [(Hc & -> & ->)|(Hc & (m4 & P4 & ->) & Hr)]; simpl in Hc.
        -- destruct P3 as (es3 & -> & Hes3). simpl. rewrite Hc. simpl.
           repeat split; try done. unfold logic. simpl.
           by rewrite !calls_app, Hes1, Hes3, !app_nil_r.
        -- destruct P4 as (es4 & -> & Hes4). destruct P3 as (es3 & -> & Hes3).
           simpl. rewrite Hc. simpl.
           repeat split; try done.
           ++ unfold logic. simpl.
              by rewrite !calls_app, Hes1, Hes3, Hes4, !app_nil_r.
           ++ destruct r2; [done|]. by destruct (Ha (Hr eq_refl)).
      * destruct (selectSetting World true _) as [[r3 m3]|] eqn:E3; [|done].
        apply selectSetting_paints in E3 as [_ (es3 & -> & Hes3)].
        intros [= <- <-].
        replace (j <? topSetting m + TFT_LINES) with true
          by (symmetry; apply Z.ltb_lt; lia).
        simpl. repeat split; try done. unfold logic. simpl.
        by rewrite !calls_app, Hes1, Hes3, !app_nil_r.
  - simpl. by intros [= <- <-].
Qed.

Lemma scrollSetting_logic d (m m' : Machine) r :
  scrollSetting World d m = Some (r, m') ->
  logic World m' = l_scrollSetting World d (logic World m).
Proof.
  intros H. apply scrollSetting_inv in H.
  unfold l_scrollSetting.
  change (l_settings World (logic World m)) with (settings m).
  change (l_currentSetting World (logic World m)) with (currentSetting m).
  destruct (search _ _ _ _) as [[j|]|]; [| |done].
  - destruct (j =? currentSetting m) eqn:Hj.
    + apply Z.eqb_eq in Hj. destruct H as [_ ->]. rewrite Hj.
      by destruct m.
    + by destruct H as (_ & -> & _).
  - by destruct H as [_ ->].
Qed.

Lemma settingsOK_logic (m m' : Machine) r :
  settingsOK World callback m = Some (r, m') ->
  logic World m' = l_settingsOK World callback (logic World m).
Proof.
  unfold settingsOK, l_settingsOK, l_selected, l_put, l_call, getSetting,
    putSetting, callFPtr, bind, get, lift, ret, modify, undefined.
  simpl. destruct (editing m) eqn:He.
  - destruct (settings m) as [a|] eqn:Ha; [|done].
    destruct (index a (currentSetting m)) as [s|] eqn:Hs; [|done].
    destruct (newValue s =? currentValue s); simpl.
    + destruct (highlightValue World _) as [[r1 m1]|] eqn:E1; [|done].
      apply highlightValue_paints in E1 as [P1 _].
      intros [= <- <-]. by apply paints_logic in P1 as ->.
    + destruct (liveUpdate s).
      * destruct (can s); simpl; rewrite Ha, Hs; simpl;
          (destruct (highlightValue World _) as [[r1 m1]|] eqn:E1; [|done]);
          apply highlightValue_paints in E1 as [P1 _];
          intros [= <- <-]; apply paints_logic in P1 as ->;
          unfold logic, l_set_editing; simpl; by rewrite ?Ha.
      * destruct (fPtr s) as [f|]; [|done]. simpl.
        destruct (callback f s (world m)) as [accepted w]. simpl.
        destruct accepted; simpl; rewrite Ha, Hs; simpl;
          (destruct (highlightValue World _) as [[r1 m1]|] eqn:E1; [|done]);
          apply highlightValue_paints in E1 as [P1 _];
          intros [= <- <-]; apply paints_logic in P1 as ->;
          unfold logic, l_set_editing; simpl; by rewrite ?Ha, calls_app.
  - destruct (highlightValue World _) as [[r1 m1]|] eqn:E1; [|done].
    apply highlightValue_paints in E1 as [P1 _].
    intros [= <- <-]. by apply paints_logic in P1 as ->.
Qed.

Lemma settingsStop_logic (m m' : Machine) r :
  settingsStop World callback m = Some (r, m') ->
  logic World m' = l_settingsStop World callback (logic World m).
Proof.
  unfold settingsStop, resetNewValue, l_settingsStop, l_selected, l_put,
    l_call, getSetting, putSetting, callFPtr, and_then, bind, get, lift,
    ret, modify, undefined.
  simpl. destruct (editing m) eqn:He; [|by intros [= <- <-]].
  simpl. destruct (settings m) as [a|] eqn:Ha; [|done]. simpl.
  destruct (index a (currentSetting m)) as [s|] eqn:Hs; [|done]. simpl.
  rewrite Ha, Hs.
  destruct (liveUpdate s && can s && negb (newValue s =? currentValue s));
    simpl.
  - destruct (fPtr s) as [f|]; [|done]. simpl.
    destruct (callback f (set_newValue (currentValue s) s) (world m))
      as [accepted w].
    simpl. intros [= <- <-]. unfold logic. simpl.
    by rewrite calls_app, He.
  - intros [= <- <-]. unfold logic. simpl. by rewrite He.
Qed.

Lemma settingsDisplayOn_logic (m m' : Machine) r :
  settingsDisplayOn World m = Some (r, m') ->
  logic World m' = logic World m.
Proof.
  unfold settingsDisplayOn, and_then, bind, get, modify, ret. simpl.
  destruct (displaySettings World _ _) as [[r1 m1]|] eqn:E1; [|done].
  destruct (selectSetting World true m1) as [[r2 m2]|] eqn:E2; [|done].
  intros [= <- <-].
  apply selectSetting_paints in E2 as [_ P2]. apply paints_logic in P2 as ->.
  by apply displaySettings_logic in E1 as ->.
Qed.

Lemma createSetting_logic text vs n cv live fp can0 (m m' : Machine) r :
  createSetting World text vs n cv live fp can0 m = Some (r, m') ->
  logic World m' =
  l_createSetting World (mkSetting text vs n cv cv fp live can0)
    (logic World m).
Proof.
  unfold createSetting, l_createSetting, nSettings, bind, get, modify, ret,
    undefined.
  simpl. destruct (settings m) as [a|] eqn:Ha; simpl.
  - destruct (Z.eqb_spec (Z.of_nat (length a)) (maxSettings m)) as [Hfull|_].
    + intros [= <- <-]. rewrite Hfull, Z.ltb_irrefl.
      unfold logic. by rewrite Ha.
    + rewrite ?Ha. destruct (_ <? _); [|done]. intros [= <- <-].
      unfold logic. simpl. by rewrite ?Ha.
  - destruct (maxSettings m); [|done..]. by intros [= <- <-].
Qed.

(** Whatever the display does, the settings, the cursor, the mode, the
    client and the calls made end as [l_exec] says. *)
Lemma exec_logic o (m m' : Machine) r :
  exec World callback o m = Some (r, m') ->
  logic World m' = l_exec World callback o (logic World m).
Proof.
  destruct o; simpl.
  - unfold bind, ret.
    destruct (createSetting World _ _ _ _ _ _ _ m) as [[r1 m1]|] eqn:E;
      [|done].
    intros [= <- <-]. by apply createSetting_logic in E.
  - apply settingsDisplayOn_logic.
  - unfold settingsDisplayOff, bind, modify, ret. by intros [= <- <-].
  - unfold settingsUp, and_then, bind, get. destruct (editing m).
    + apply scrollValue_logic.
    + apply scrollSetting_logic.
  - unfold settingsDown, and_then, bind, get. destruct (editing m).
    + apply scrollValue_logic.
    + apply scrollSetting_logic.
  - apply settingsOK_logic.
  - apply settingsStop_logic.
Qed.

(** ** Who writes [currentValue] *)

Lemma l_put_currentValue i s s' (L : Logic World) :
  index (entries (l_settings World L)) i = Some s ->
  currentValue s' = currentValue s ->
  map currentValue (entries (l_settings World (l_put World i s' L))) =
  map currentValue (entries (l_settings World L)).
Proof.
  unfold l_put. destruct (l_settings World L) as [a|] eqn:Ha; simpl.
  - intros Hs Hc. by eapply map_store.
  - by rewrite Ha.
Qed.

Lemma l_put_index i s s' (L : Logic World) :
  index (entries (l_settings World L)) i = Some s ->
  index (entries (l_settings World (l_put World i s' L))) i = Some s'.
Proof.
  unfold l_put. destruct (l_settings World L) as [a|] eqn:Ha; simpl.
  - apply index_store_eq.
  - unfold index. destruct (_ <? _); [done|]. by rewrite lookup_nil.
Qed.

Lemma l_call_settings s (L : Logic World) :
  l_settings World (snd (l_call World callback s L)) = l_settings World L.
Proof.
  unfold l_call. destruct (fPtr s); [|done].
  by destruct (callback _ _ _).
Qed.

Lemma l_selected_entries (L : Logic World) s :
  l_selected World L = Some s ->
  index (entries (l_settings World L)) (l_currentSetting World L) = Some s.
Proof. unfold l_selected. by destruct (l_settings World L). Qed.

Lemma l_scrollValue_currentValue d (L : Logic World) :
  map currentValue (entries (l_settings World (l_scrollValue World callback d L))) =
  map currentValue (entries (l_settings World L)).
Proof.
  unfold l_scrollValue.
  destruct (l_selected World L) as [s|] eqn:Hs; [|done].
  apply l_selected_entries in Hs.
  destruct (_ =? _); [done|].
  destruct (liveUpdate s).
  - pose proof (l_call_settings
      (set_newValue (scrolled d (newValue s) (nValues s)) s)
      (l_put World (l_currentSetting World L)
         (set_newValue (scrolled d (newValue s) (nValues s)) s) L)) as Hc.
    destruct (l_call _ _ _ _) as [accepted L2]. simpl in Hc.
    rewrite (l_put_currentValue _
               (set_newValue (scrolled d (newValue s) (nValues s)) s)).
    + rewrite Hc. by apply (l_put_currentValue _ s).
    + rewrite Hc. by eapply l_put_index.
    + done.
  - by apply (l_put_currentValue _ s).
Qed.

Lemma l_settingsStop_currentValue (L : Logic World) :
  map currentValue (entries (l_settings World (l_settingsStop World callback L))) =
  map currentValue (entries (l_settings World L)).
Proof.
  unfold l_settingsStop. destruct (l_editing World L); [|done].
  destruct (l_selected World L) as [s|] eqn:Hs; [|done].
  apply l_selected_entries in Hs.
  destruct (_ && _).
  - rewrite l_call_settings. by apply (l_put_currentValue _ s).
  - by apply (l_put_currentValue _ s).
Qed.

Lemma l_scrollSetting_settings d (L : Logic World) :
  l_settings World (l_scrollSetting World d L) = l_settings World L.
Proof. unfold l_scrollSetting. by destruct (search _ _ _ _) as [[j|]|]. Qed.

(** C10. Up and Down never change the [currentValue] of any setting, in
    either mode and whatever [liveUpdate] is; nor do DisplayOn, DisplayOff,
    Stop, or OK outside editing; creating a setting adds an entry and
    leaves the others alone.  So once a setting exists, only OK while
    editing writes its [currentValue]. *)
Theorem currentValue_written_by_OK_only o (m m' : Machine) r :
  exec World callback o m = Some (r, m') ->
  (o = OK -> editing m = false) ->
  match o with
  | Create _ _ _ currentValue _ _ _ =>
      currentValues World m' = currentValues World m \/
      currentValues World m' = currentValues World m ++ [currentValue]
  | _ => currentValues World m' = currentValues World m
  end.
Proof.
  intros H Hok. apply exec_logic in H.
  assert (Hs : settings m' = l_settings World (logic World m'))
    by reflexivity.
  unfold currentValues. rewrite Hs, H. clear Hs H.
  destruct o; simpl.
  - unfold l_createSetting, logic. simpl.
    destruct (settings m) as [a|]; [|by left].
    destruct (_ <? _); [|by left].
    right. simpl. by rewrite map_app.
  - done.
  - done.
  - destruct (editing m).
    + apply l_scrollValue_currentValue.
    + by rewrite l_scrollSetting_settings.
  - destruct (editing m).
    + apply l_scrollValue_currentValue.
    + by rewrite l_scrollSetting_settings.
  - unfold l_settingsOK. simpl. by rewrite (Hok eq_refl).
  - apply l_settingsStop_currentValue.
Qed.

(** ** What the events answer *)

Lemma search_direction d a fuel : forall n j,
  search d a n fuel = Some (Some j) ->
  (0 < d -> n < j) /\ (d < 0 -> j < n).
Proof.
  induction fuel as [|fuel IH]; intros n j; simpl; [done|].
  destruct (_ || _); [|done].
  destruct (index a (n + d)) as [s|]; [|done].
  destruct (name s).
  - intros [= <-]. lia.
  - intros H. apply IH in H. lia.
Qed.

Lemma scrollValue_result d (m m' : Machine) a r :
  settings m = Some a ->
  scrollValue World callback d m = Some (r, m') -> r = true.
Proof.
  intros Ha.
  unfold scrollValue, getSetting, putSetting, callFPtr, and_then, bind, get,
    lift, ret, modify, undefined.
  rewrite Ha. simpl. rewrite Ha.
  destruct (index a (currentSetting m)) as [s|] eqn:Hs; [|done].
  destruct (_ =? _); simpl; [by intros [= <- _]|].
  rewrite Ha, Hs.
  destruct (highlightValue World _) as [[r1 m1]|] eqn:E1; [|done].
  apply highlightValue_paints in E1 as [(es & -> & _) R1].
  destruct r1; [|by specialize (R1 eq_refl)].
  destruct (liveUpdate s); [|by intros [= <- _]].
  simpl. rewrite (index_store_eq a _ s _ Hs). simpl.
  destruct (fPtr s) as [f|]; [|done]. simpl.
  destruct (callback f _ (world m)) as [accepted w]. simpl.
  rewrite (index_store_eq a _ s _ Hs). by intros [= <- _].
Qed.

Lemma settingsOK_result (m m' : Machine) r :
  settingsOK World callback m = Some (r, m') -> r = true.
Proof.
  unfold settingsOK, bind, get, ret, modify.
  match goal with
  | |- match ?c with _ => _ end = _ -> _ =>
      destruct c as [[u m1]|]; [|done]
  end.
  destruct (highlightValue World _) as [[r1 m2]|]; [|done].
  by intros [= <- _].
Qed.

Lemma settingsStop_result (m m' : Machine) r :
  settingsStop World callback m = Some (r, m') -> r = true.
Proof.
  unfold settingsStop, resetNewValue, and_then, bind, get, ret.
  destruct (editing m); [|by intros [= <- _]].
  destruct (getSetting World _ m) as [[s m1]|]; [|done].
  destruct (putSetting World _ _ m1) as [[u m2]|]; [|done].
  match goal with
  | |- match ?c with _ => _ end = _ -> _ =>
      destruct c as [[u' m3]|]; [|done]
  end.
  by intros [= <- _].
Qed.

Lemma browse_result d (m m' : Machine) r :
  d = 1 \/ d = -1 ->
  scrollSetting World d m = Some (r, m') ->
  if currentSetting m' =? currentSetting m then r = false /\ m' = m
  else r = in_window World m (currentSetting m') || canUseDisplay m /\
       topSetting m' =
         (if in_window World m (currentSetting m') || negb (canUseDisplay m)
          then topSetting m
          else if currentSetting m' <? topSetting m then currentSetting m'
               else currentSetting m' - TFT_LINES + 1).
Proof.
  intros Hd H. apply scrollSetting_inv in H.
  destruct (search _ _ _ _) as [[j|]|] eqn:Hfind; [| |done].
  - apply search_direction in Hfind.
    destruct (Z.eqb_spec j (currentSetting m)) as [Hj|Hj]; [lia|].
    destruct H as (-> & _ & _ & -> & ->).
    by destruct (Z.eqb_spec j (currentSetting m)).
  - destruct H as [-> ->]. by rewrite Z.eqb_refl.
Qed.

(** C8, as the code has it.  OK and Stop always answer [true].  Up and
    Down answer [true] while editing.  While browsing they answer [false]
    when the cursor stays where it is (no further setting in that
    direction): nothing is drawn and nothing changes; and when the cursor
    moves they answer with the result of the redraw, which is [true]
    unless the new selection lies outside the lines on the display while
    the library may not use the display. *)
Theorem result_of_event o (m m' : Machine) a r :
  settings m = Some a ->
  exec World callback o m = Some (r, m') ->
  match o with
  | OK | Stop => r = true
  | Up | Down =>
      if editing m then r = true
      else if currentSetting m' =? currentSetting m
      then r = false /\ m' = m
      else r = in_window World m (currentSetting m') || canUseDisplay m
  | _ => True
  end.
Proof.
  intros Ha H. destruct o; simpl in *; try done.
  - revert H. unfold settingsUp, and_then, bind, get.
    destruct (editing m).
    + by apply scrollValue_result with (a := a).
    + intros H. apply browse_result in H; [|by left].
      destruct (_ =? _); [done|]. by destruct H.
  - revert H. unfold settingsDown, and_then, bind, get.
    destruct (editing m).
    + by apply scrollValue_result with (a := a).
    + intros H. apply browse_result in H; [|by right].
      destruct (_ =? _); [done|]. by destruct H.
  - by apply settingsOK_result in H.
  - by apply settingsStop_result in H.
Qed.

(** C9, as the code has it.  A display function that fails stops there:
    [displaySettings] returns at once when the library may not use the
    display, drawing nothing and leaving [topSetting] alone, and its loop
    draws no further row once one has failed.  The event goes on to its
    end: a cursor that moved out of the window while the display may not
    be used makes the event answer [false], and whatever the display did,
    the settings with their [currentValue] and [newValue], the cursor, the
    editing flag and the calls to the client end exactly as they do when
    every drawing succeeds. *)
Theorem display_failure_is_local :
  (forall first (m : Machine),
      canUseDisplay m = false ->
      displaySettings World first m = Some (false, m)) /\
  (forall first i todo (m : Machine),
      displaySettings_loop World first i todo false m = Some (false, m)) /\
  (forall o d (m m' : Machine) r,
      amount o = Some d ->
      editing m = false ->
      canUseDisplay m = false ->
      exec World callback o m = Some (r, m') ->
      currentSetting m' <> currentSetting m ->
      in_window World m (currentSetting m') = false ->
      r = false /\ topSetting m' = topSetting m) /\
  (forall o (m1 m2 m1' m2' : Machine) r1 r2,
      logic World m1 = logic World m2 ->
      exec World callback o m1 = Some (r1, m1') ->
      exec World callback o m2 = Some (r2, m2') ->
      logic World m1' = logic World m2').
Proof.
  split; [|split; [|split]].
  - intros first m Hc. unfold displaySettings, bind, get, ret.
    by rewrite Hc.
  - intros first i todo m. by destruct todo.
  - intros o d m m' r Ho He Hc H Hmoved Hout.
    rewrite (exec_browsing o d m Ho He) in H.
    apply browse_result in H; [|by eapply amount_unit].
    destruct (Z.eqb_spec (currentSetting m') (currentSetting m)); [done|].
    destruct H as [-> ->]. by rewrite Hc, Hout.
  - intros o m1 m2 m1' m2' r1 r2 HL H1 H2.
    apply exec_logic in H1, H2. by rewrite H1, H2, HL.
Qed.

(** ** Up and Down while browsing *)

Lemma search_next_named d a fuel : forall n j,
  search d a n fuel = Some (Some j) -> next_named d a n j.
Proof.
  induction fuel as [|fuel IH]; intros n j; simpl; [done|].
  destruct (_ || _); [|done].
  destruct (index a (n + d)) as [s|] eqn:Hs; [|done].
  destruct (name s) as [t|] eqn:Hn.
  - intros [= <-]. exists 1. split; [lia|]. split; [lia|]. split.
    + exists s. split; [done|]. by rewrite Hn.
    + intros k Hk. lia.
  - intros H. apply IH in H as (K & HK & -> & Hj & Hsep).
    exists (K + 1). split; [lia|]. split; [lia|]. split; [done|].
    intros k Hk. destruct (Z.eq_dec k 1) as [->|Hk1].
    + exists s. split; [|done]. by rewrite Z.mul_1_l.
    + replace (n + k * d) with (n + d + (k - 1) * d) by lia.
      apply Hsep. lia.
Qed.

Lemma named_not_separator a t : named a t -> separator a t -> False.
Proof. intros (s & Hs & Hn) (s' & Hs' & Hn'). congruence. Qed.

Lemma named_inside a t : named a t -> 0 <= t.
Proof. intros (s & Hs & _). apply index_Some in Hs. lia. Qed.

(** Going to the next named entry and back ends where it began. *)
Lemma there_and_back d a i j i' :
  d = 1 \/ d = -1 ->
  i = 0 \/ named a i ->
  next_named d a i j ->
  next_named (- d) a j i' ->
  i' = i.
Proof.
  intros Hd Hi (K & HK & -> & Hj & Hsep) (K' & HK' & -> & Hi' & Hsep').
  destruct (Z.lt_trichotomy K' K) as [Hlt|[->|Hgt]].
  - exfalso. apply (named_not_separator a _ Hi').
    replace (i + K * d + K' * - d) with (i + (K - K') * d) by lia.
    apply Hsep. lia.
  - lia.
  - exfalso.
    assert (Hsep_i : separator a i).
    { replace i with (i + K * d + K * - d) at 1 by lia. apply Hsep'. lia. }
    destruct Hi as [->|Hi]; [|exact (named_not_separator a i Hi Hsep_i)].
    apply named_inside in Hi', Hj. destruct Hd as [-> | ->]; lia.
Qed.

(** ** The cursor rests on a named entry *)

Lemma keeps_names_refl (L : Logic World) : keeps_names World L L.
Proof. by split. Qed.

Lemma keeps_names_trans (L1 L2 L3 : Logic World) :
  keeps_names World L1 L2 -> keeps_names World L2 L3 ->
  keeps_names World L1 L3.
Proof. intros [H1 N1] [H2 N2]. split; [congruence|auto]. Qed.

Lemma keeps_names_cursor_ok (L L' : Logic World) :
  keeps_names World L L' -> cursor_ok World L -> cursor_ok World L'.
Proof.
  intros [Hc Hn] [H0|H]; [left; congruence|right]. rewrite Hc. auto.
Qed.

Lemma l_put_keeps_names i s s' (L : Logic World) :
  index (entries (l_settings World L)) i = Some s ->
  name s' = name s ->
  keeps_names World L (l_put World i s' L).
Proof.
  intros Hs Hn. unfold l_put.
  destruct (l_settings World L) as [a|] eqn:Ha; [|apply keeps_names_refl].
  split; [done|]. simpl in *. rewrite Ha. simpl.
  intros t (u & Hu & Hname).
  destruct (Z.eq_dec i t) as [<-|Hne].
  - exists s'. split; [by eapply index_store_eq|]. congruence.
  - exists u. split; [|done]. rewrite index_store_ne; [done| |done].
    apply index_Some in Hs. lia.
Qed.

Lemma l_call_keeps_names s (L : Logic World) :
  keeps_names World L (snd (l_call World callback s L)).
Proof.
  unfold l_call. destruct (fPtr s); [|apply keeps_names_refl].
  destruct (callback _ _ _). by split.
Qed.

Lemma l_scrollValue_keeps_names d (L : Logic World) :
  keeps_names World L (l_scrollValue World callback d L).
Proof.
  unfold l_scrollValue.
  destruct (l_selected World L) as [s|] eqn:Hs; [|apply keeps_names_refl].
  apply l_selected_entries in Hs.
  destruct (_ =? _); [apply keeps_names_refl|].
  set (s1 := set_newValue (scrolled d (newValue s) (nValues s)) s).
  pose proof (l_put_keeps_names _ s s1 L Hs eq_refl) as H1.
  destruct (liveUpdate s); [|done].
  pose proof (l_call_keeps_names s1 (l_put World (l_currentSetting World L) s1 L))
    as H2.
  pose proof (l_call_settings s1 (l_put World (l_currentSetting World L) s1 L))
    as H3.
  destruct (l_call _ _ _ _) as [accepted L2]. simpl in H2, H3.
  eapply keeps_names_trans; [exact H1|].
  eapply keeps_names_trans; [exact H2|].
  apply (l_put_keeps_names _ s1); [|done].
  rewrite H3. by eapply l_put_index.
Qed.

Lemma l_set_editing_keeps_names b (L L' : Logic World) :
  keeps_names World L L' -> keeps_names World L (l_set_editing World b L').
Proof. by intros [H N]. Qed.

Lemma l_settingsOK_keeps_names (L : Logic World) :
  keeps_names World L (l_settingsOK World callback L).
Proof.
  unfold l_settingsOK. destruct (l_editing World L); [|by split].
  destruct (l_selected World L) as [s|] eqn:Hs; [|apply keeps_names_refl].
  apply l_selected_entries in Hs.
  apply l_set_editing_keeps_names.
  destruct (_ =? _); [apply keeps_names_refl|].
  destruct (liveUpdate s).
  - apply (l_put_keeps_names _ s); [done|by destruct (can s)].
  - pose proof (l_call_keeps_names s L) as H2.
    pose proof (l_call_settings s L) as H3.
    destruct (l_call _ _ _ _) as [accepted L1]. simpl in H2, H3.
    eapply keeps_names_trans; [exact H2|].
    apply (l_put_keeps_names _ s); [|by destruct accepted].
    by rewrite H3.
Qed.

Lemma l_settingsStop_keeps_names (L : Logic World) :
  keeps_names World L (l_settingsStop World callback L).
Proof.
  unfold l_settingsStop.
  destruct (l_editing World L); [|apply keeps_names_refl].
  destruct (l_selected World L) as [s|] eqn:Hs; [|apply keeps_names_refl].
  apply l_selected_entries in Hs.
  pose proof (l_put_keeps_names _ s (set_newValue (currentValue s) s) L
                Hs eq_refl) as H1.
  destruct (_ && _); [|done].
  eapply keeps_names_trans; [exact H1|apply l_call_keeps_names].
Qed.

Lemma l_createSetting_keeps_names s (L : Logic World) :
  keeps_names World L (l_createSetting World s L).
Proof.
  unfold l_createSetting.
  destruct (l_settings World L) as [a|] eqn:Ha; [|apply keeps_names_refl].
  destruct (_ <? _); [|apply keeps_names_refl].
  split; [done|]. rewrite Ha. simpl.
  intros t (u & Hu & Hn). exists u. split; [by apply index_app_l|done].
Qed.

Lemma l_scrollSetting_cursor_ok d (L : Logic World) :
  cursor_ok World L -> cursor_ok World (l_scrollSetting World d L).
Proof.
  unfold l_scrollSetting.
  destruct (search _ _ _ _) as [[j|]|] eqn:Hfind; try done.
  intros _. right. simpl.
  by apply search_next_named in Hfind as (K & _ & _ & Hj & _).
Qed.

Lemma l_exec_cursor_ok o (L : Logic World) :
  cursor_ok World L -> cursor_ok World (l_exec World callback o L).
Proof.
  destruct o; simpl.
  - apply keeps_names_cursor_ok, l_createSetting_keeps_names.
  - done.
  - by apply keeps_names_cursor_ok.
  - destruct (l_editing World L).
    + apply keeps_names_cursor_ok, l_scrollValue_keeps_names.
    + apply l_scrollSetting_cursor_ok.
  - destruct (l_editing World L).
    + apply keeps_names_cursor_ok, l_scrollValue_keeps_names.
    + apply l_scrollSetting_cursor_ok.
  - apply keeps_names_cursor_ok, l_settingsOK_keeps_names.
  - apply keeps_names_cursor_ok, l_settingsStop_keeps_names.
Qed.

Lemma run_cursor_ok os : forall (m m' : Machine),
  run World callback os m = Some m' ->
  cursor_ok World (logic World m) -> cursor_ok World (logic World m').
Proof.
  induction os as [|o os IH]; intros m m'; simpl.
  - by intros [= <-].
  - destruct (exec World callback o m) as [[r m1]|] eqn:E; [|done].
    intros H Hm. apply (IH m1 m' H). apply exec_logic in E. rewrite E.
    by apply l_exec_cursor_ok.
Qed.

Lemma reachable_cursor_ok (m : Machine) :
  reachable World callback m -> cursor_ok World (logic World m).
Proof.
  intros (n & ok & w & r & m0 & os & Hinit & Hrun).
  apply (run_cursor_ok os m0 m Hrun). left. revert Hinit.
  unfold initSettings, bind, get, modify, ret. simpl.
  by intros [= _ <-].
Qed.

Lemma browse_step o d (m m' : Machine) r :
  amount o = Some d ->
  editing m = false ->
  exec World callback o m = Some (r, m') ->
  currentSetting m' <> currentSetting m ->
  settings m' = settings m /\ editing m' = false /\
  next_named d (entries (settings m)) (currentSetting m) (currentSetting m').
Proof.
  intros Ho He H Hmoved. rewrite (exec_browsing o d m Ho He) in H.
  apply scrollSetting_inv in H.
  destruct (search _ _ _ _) as [[j|]|] eqn:Hfind; [| |done].
  - destruct (j =? currentSetting m).
    + destruct H as [_ ->]. done.
    + destruct H as (Hj & HL & _).
      split; [exact (f_equal (l_settings World) HL)|].
      split; [rewrite <- He; exact (f_equal (l_editing World) HL)|].
      rewrite Hj. by eapply search_next_named.
  - destruct H as [_ ->]. done.
Qed.

Lemma moves_app os1 : forall os2 (m m' : Machine),
  moves World callback (os1 ++ os2) m m' ->
  exists m1, moves World callback os1 m m1 /\ moves World callback os2 m1 m'.
Proof.
  induction os1 as [|o os1 IH]; intros os2 m m' H; simpl in H.
  - exists m. split; [constructor|done].
  - inversion H as [|o' os' m0 r m1 m2 Hexec Hmoved Hrest]; subst.
    apply IH in Hrest as (m3 & H1 & H2).
    exists m3. split; [|done]. by econstructor.
Qed.

Lemma round_trip o1 o2 d :
  amount o1 = Some d -> amount o2 = Some (- d) ->
  forall k (m m' : Machine),
    editing m = false ->
    cursor_ok World (logic World m) ->
    moves World callback (repeat o1 k ++ repeat o2 k) m m' ->
    currentSetting m' = currentSetting m /\
    settings m' = settings m /\
    editing m' = false.
Proof.
  intros Ho1 Ho2. induction k as [|k IH]; intros m m' He Hok H.
  - inversion H; subst. done.
  - replace (repeat o1 (S k) ++ repeat o2 (S k))
      with (o1 :: (repeat o1 k ++ repeat o2 k) ++ [o2]) in H.
    2: { simpl. rewrite (repeat_cons k o2), <- app_assoc. reflexivity. }
    inversion H as [|o' os' m0 r m1 m2 Hexec Hmoved Hrest]; subst.
    apply moves_app in Hrest as (m2 & Hmid & Hlast).
    destruct (browse_step o1 d m m1 r Ho1 He Hexec Hmoved)
      as (Hs1 & He1 & Hnext).
    assert (Hok1 : cursor_ok World (logic World m1)).
    { right. simpl. rewrite Hs1.
      by destruct Hnext as (K & _ & _ & Hj & _). }
    destruct (IH m1 m2 He1 Hok1 Hmid) as (Hc2 & Hs2 & He2).
    inversion Hlast as [|o' os' m0 r' m3 m4 Hexec' Hmoved' Hnil]; subst.
    inversion Hnil; subst.
    destruct (browse_step o2 (- d) m2 m' r' Ho2 He2 Hexec' Hmoved')
      as (Hs3 & He3 & Hback).
    rewrite Hs2, Hs1, Hc2 in Hback.
    split; [|split; [congruence|done]].
    apply (there_and_back d (entries (settings m)) (currentSetting m)
             (currentSetting m1));
      [exact (amount_unit o1 d Ho1)| |exact Hnext|exact Hback].
    destruct Hok as [H0|Hn]; [by left|by right].
Qed.

(** C7. From every browsing state the public operations lead to, [k] Ups
    followed by [k] Downs, and [k] Downs followed by [k] Ups, bring
    [currentSetting] back to where it was, provided every one of those
    events moved the cursor (none was stopped at the first or last
    setting). *)
Theorem up_down_round_trip k (m m' : Machine) :
  reachable World callback m ->
  editing m = false ->
  moves World callback (repeat Up k ++ repeat Down k) m m' \/
  moves World callback (repeat Down k ++ repeat Up k) m m' ->
  currentSetting m' = currentSetting m.
Proof.
  intros Hreach He [H|H]; apply reachable_cursor_ok in Hreach.
  - by apply (round_trip Up Down 1 eq_refl eq_refl k m m' He Hreach).
  - by apply (round_trip Down Up (-1) eq_refl eq_refl k m m' He Hreach).
Qed.

(** ** Outside an edit the new value is the current value, unless the
    display is taken away during the edit *)

Lemma same_others_refl L : same_others World L L.
Proof. by repeat split. Qed.

Lemma same_others_trans L1 L2 L3 :
  same_others World L1 L2 -> same_others World L2 L3 -> same_others World L1 L3.
Proof.
  intros (E1 & C1 & I1) (E2 & C2 & I2). repeat split; try congruence.
  intros i Hi. rewrite I2, I1; [done..|congruence].
Qed.

Lemma l_put_same_others s s' (L : Logic World) :
  index (entries (l_settings World L)) (l_currentSetting World L) = Some s ->
  same_others World L (l_put World (l_currentSetting World L) s' L).
Proof.
  intros Hs. unfold l_put.
  destruct (l_settings World L) as [a|] eqn:Ha; [|apply same_others_refl].
  repeat split; simpl. intros i Hi. rewrite Ha. simpl in *.
  apply index_store_ne; [|done]. apply index_Some in Hs. lia.
Qed.

Lemma l_call_same_others s (L : Logic World) :
  same_others World L (snd (l_call World callback s L)).
Proof.
  unfold l_call. destruct (fPtr s); [|apply same_others_refl].
  destruct (callback _ _ _). by repeat split.
Qed.

Lemma l_scrollValue_same_others d (L : Logic World) :
  same_others World L (l_scrollValue World callback d L).
Proof.
  unfold l_scrollValue.
  destruct (l_selected World L) as [s|] eqn:Hs; [|apply same_others_refl].
  apply l_selected_entries in Hs.
  destruct (_ =? _); [apply same_others_refl|].
  set (s1 := set_newValue (scrolled d (newValue s) (nValues s)) s).
  pose proof (l_put_same_others s s1 L Hs) as H1.
  destruct (liveUpdate s); [|done].
  pose proof (l_call_same_others s1 (l_put World (l_currentSetting World L) s1 L))
    as H2.
  pose proof (l_call_settings s1
                (l_put World (l_currentSetting World L) s1 L)) as H3.
  destruct (l_call _ _ _ _) as [accepted L2]. simpl in H2, H3.
  eapply same_others_trans; [exact H1|].
  eapply same_others_trans; [exact H2|].
  destruct H1 as (_ & C1 & _). destruct H2 as (_ & C2 & _).
  replace (l_currentSetting World L) with (l_currentSetting World L2)
    by congruence.
  apply (l_put_same_others s1).
  rewrite H3. replace (l_currentSetting World L2)
    with (l_currentSetting World L) by congruence.
  by eapply l_put_index.
Qed.

Lemma same_others_settled (L L' : Logic World) :
  same_others World L L' -> l_editing World L = true -> settled World L -> settled World L'.
Proof.
  intros (E & C & I) He HL i s Hs Hi.
  rewrite E, C in Hi. specialize (Hi He).
  rewrite I in Hs; [|done]. apply (HL i s Hs). by intros _.
Qed.

Lemma settled_cursor (L L' : Logic World) s' b :
  same_others World L L' ->
  settled World L ->
  index (entries (l_settings World L')) (l_currentSetting World L) = Some s' ->
  newValue s' = currentValue s' ->
  settled World (l_set_editing World b L').
Proof.
  intros (E & C & I) HL Hs' Heq i s Hs _. simpl in Hs.
  destruct (Z.eq_dec i (l_currentSetting World L)) as [->|Hne].
  - congruence.
  - rewrite I in Hs; [|done]. apply (HL i s Hs). by intros _.
Qed.

Lemma index_snoc {A : Type} (a : list A) (x y : A) i :
  index (a ++ [x]) i = Some y -> index a i = Some y \/ y = x.
Proof.
  unfold index. destruct (_ <? _); [done|].
  destruct (decide (Z.to_nat i < length a)%nat) as [Hi|Hi].
  - rewrite lookup_app_l; auto.
  - rewrite lookup_app_r; [|lia].
    destruct (Z.to_nat i - length a)%nat as [|k]; simpl.
    + intros [= <-]. by right.
    + by rewrite lookup_nil.
Qed.

Lemma l_exec_settled o (L : Logic World) :
  settled World L ->
  (o = DisplayOff -> l_editing World L = false) ->
  settled World (l_exec World callback o L).
Proof.
  intros HL Hoff. destruct o; simpl.
  - unfold l_createSetting.
    destruct (l_settings World L) as [a|] eqn:Ha; [|done].
    destruct (_ <? _); [|done].
    intros i s Hs Hi. simpl in Hs, Hi.
    apply index_snoc in Hs as [Hs| ->]; [|done].
    apply (HL i s); [by rewrite Ha|done].
  - done.
  - intros i s Hs _. apply (HL i s Hs). rewrite (Hoff eq_refl). done.
  - destruct (l_editing World L) eqn:He.
    + by apply (same_others_settled L _ (l_scrollValue_same_others 1 L)).
    + unfold l_scrollSetting. destruct (search _ _ _ _) as [[j|]|]; try done.
      intros i s Hs _. apply (HL i s Hs). by rewrite He.
  - destruct (l_editing World L) eqn:He.
    + by apply (same_others_settled L _ (l_scrollValue_same_others (-1) L)).
    + unfold l_scrollSetting. destruct (search _ _ _ _) as [[j|]|]; try done.
      intros i s Hs _. apply (HL i s Hs). by rewrite He.
  - unfold l_settingsOK. destruct (l_editing World L) eqn:He.
    + destruct (l_selected World L) as [s|] eqn:Hs; [|done].
      apply l_selected_entries in Hs.
      destruct (Z.eqb_spec (newValue s) (currentValue s)) as [Heq|Hne].
      * by apply (settled_cursor L L s false (same_others_refl L)).
      * destruct (liveUpdate s).
        -- eapply (settled_cursor L); [by eapply l_put_same_others|done| |].
           ++ by eapply l_put_index.
           ++ by destruct (can s).
        -- pose proof (l_call_same_others s L) as H2.
           pose proof (l_call_settings s L) as H3.
           destruct (l_call _ _ _ _) as [accepted L1]. simpl in H2, H3.
           assert (Hs1 : index (entries (l_settings World L1))
                           (l_currentSetting World L) = Some s)
             by (by rewrite H3).
           eapply (settled_cursor L); [|done| |].
           ++ eapply same_others_trans; [exact H2|].
              destruct H2 as (_ & C2 & _). rewrite <- C2.
              apply (l_put_same_others s). by rewrite C2.
           ++ eapply l_put_index. exact Hs1.
           ++ by destruct accepted.
    + intros i s Hs _. apply (HL i s Hs). by rewrite He.
  - unfold l_settingsStop. destruct (l_editing World L) eqn:He; [|done].
    destruct (l_selected World L) as [s|] eqn:Hs; [|done].
    apply l_selected_entries in Hs.
    pose proof (l_put_same_others s (set_newValue (currentValue s) s) L Hs)
      as H1.
    apply (same_others_settled L); [|done..].
    destruct (_ && _); [|done].
    eapply same_others_trans; [exact H1|apply l_call_same_others].
Qed.

Lemma run_settled os : forall (m m' : Machine),
  run World callback os m = Some m' ->
  DisplayOff ∉ os ->
  settled World (logic World m) -> settled World (logic World m').
Proof.
  induction os as [|o os IH]; intros m m'; simpl.
  - by intros [= <-].
  - destruct (exec World callback o m) as [[r m1]|] eqn:E; [|done].
    intros H Hoff Hm. apply (IH m1 m' H).
    + intros Hin. apply Hoff. by right.
    + apply exec_logic in E. rewrite E. apply l_exec_settled; [done|].
      intros ->. destruct Hoff. by left.
Qed.

Lemma pending_is_current_without_DisplayOff n mallocOK w r os
    (m0 m : Machine) i s :
  initSettings World n mallocOK (boot World w) = Some (r, m0) ->
  run World callback os m0 = Some m ->
  DisplayOff ∉ os ->
  editing m = false ->
  index (entries (settings m)) i = Some s ->
  newValue s = currentValue s.
Proof.
  intros Hinit Hrun Hoff He Hs.
  apply (run_settled os m0 m Hrun Hoff) with (i := i); [|done|].
  - revert Hinit. unfold initSettings, bind, get, modify, ret. simpl.
    intros [= _ <-] j u. simpl. destruct mallocOK; simpl; unfold index;
      destruct (_ <? _); try done; by rewrite lookup_nil.
  - simpl. by rewrite He.
Qed.

(** ** The two exits from an edit that differ from their documentation *)

Lemma l_settingsStop_same_others (L : Logic World) :
  same_others World L (l_settingsStop World callback L).
Proof.
  unfold l_settingsStop.
  destruct (l_editing World L); [|apply same_others_refl].
  destruct (l_selected World L) as [s|] eqn:Hs; [|apply same_others_refl].
  apply l_selected_entries in Hs.
  pose proof (l_put_same_others s (set_newValue (currentValue s) s) L Hs)
    as H1.
  destruct (_ && _); [|done].
  eapply same_others_trans; [exact H1|apply l_call_same_others].
Qed.

(** [settingsStop] never touches [editing]. *)
Lemma settingsStop_keeps_editing (m m' : Machine) r :
  settingsStop World callback m = Some (r, m') -> editing m' = editing m.
Proof.
  intros H. apply settingsStop_logic in H.
  destruct (l_settingsStop_same_others (logic World m)) as (He & _).
  rewrite <- H in He. exact He.
Qed.

(** [settingsDisplayOff] clears the two flags and nothing else. *)
Lemma settingsDisplayOff_keeps_settings (m : Machine) :
  settingsDisplayOff World m =
  Some (true, set_editing false (set_canUseDisplay false m)).
Proof. reflexivity. Qed.

End Properties.

(** * The properties at work on the demo menu *)

(** C2 on the live setting IF: Up while editing calls function 0 once and
    keeps the new value; OK then commits it without a further call. *)
Lemma live_update_scroll_then_accept_witness :
  (exists m',
      exec nat Demo.client Up Demo.editing_IF = Some (true, m') /\
      calls (trace m') =
        calls (trace Demo.editing_IF) ++
        [Call 0 (mkSetting (Some "IF"%string)
                   ["0"%string; "4500"%string; "5000"%string] 3 1 2
                   (Some 0%nat) true false) true] /\
      world m' = 1%nat) /\
  (exists m',
      exec nat Demo.client OK Demo.IF_scrolled = Some (true, m') /\
      calls (trace m') = calls (trace Demo.IF_scrolled) /\
      option_map currentValue (selected nat m') = Some 2).
Proof.
  split.
  - edestruct (proj1 (live_update_scroll_then_accept nat Demo.client)
                 Up 1 Demo.editing_IF)
      as (m' & H1 & H2 & H3 & H4 & H5 & H6);
      [reflexivity|reflexivity|reflexivity|reflexivity|reflexivity|
       reflexivity|vm_compute; discriminate|reflexivity|reflexivity|].
    exists m'. split; [exact H1|]. split; [exact H2|exact H4].
  - edestruct (proj2 (live_update_scroll_then_accept nat Demo.client)
                 Demo.IF_scrolled)
      as (m' & H1 & H2 & H3 & H4 & H5 & H6);
      [reflexivity|reflexivity|reflexivity|reflexivity|
       vm_compute; discriminate|reflexivity|].
    exists m'. split; [exact H1|]. split; [exact H2|].
    unfold selected. rewrite H4, H5. reflexivity.
Defined.

(** C3 on the setting TAPS, which is not live: Up while editing calls
    nothing, OK calls function 2 once and commits, and OK without a change
    calls nothing. *)
Lemma deferred_update_scroll_then_accept_witness :
  (exists m',
      exec nat Demo.client Up Demo.editing_TAPS = Some (true, m') /\
      calls (trace m') = calls (trace Demo.editing_TAPS)) /\
  (exists m',
      exec nat Demo.client OK Demo.TAPS_scrolled = Some (true, m') /\
      world m' = 1%nat /\
      option_map currentValue (selected nat m') = Some 1) /\
  (exists m',
      exec nat Demo.client OK Demo.editing_TAPS = Some (true, m') /\
      world m' = 0%nat).
Proof.
  pose proof (deferred_update_scroll_then_accept nat Demo.client)
    as (Hscroll & Hcommit & Hsame).
  split; [|split].
  - edestruct (Hscroll Up 1 Demo.editing_TAPS) as (m' & H1 & H2 & H3);
      [reflexivity|reflexivity|reflexivity|reflexivity|reflexivity|
       reflexivity|].
    exists m'. split; [exact H1|exact H2].
  - edestruct (Hcommit Demo.TAPS_scrolled)
      as (m' & H1 & H2 & H3 & H4 & H5 & H6);
      [reflexivity|reflexivity|reflexivity|reflexivity|
       vm_compute; discriminate|reflexivity|reflexivity|reflexivity|].
    exists m'. split; [exact H1|]. split; [exact H3|].
    unfold selected. rewrite H4, H5. reflexivity.
  - edestruct (Hsame Demo.editing_TAPS) as (m' & H1 & H2 & H3 & H4 & H5);
      [reflexivity|reflexivity|reflexivity|reflexivity|reflexivity|
       reflexivity|].
    exists m'. split; [exact H1|exact H3].
Defined.

(** C4 on IF after an accepted scroll: Stop puts [newValue] back to 1 and
    tells function 0 about it. *)
Lemma cancel_restores_newValue_witness :
  exists m' s',
    exec nat Demo.client Stop Demo.IF_scrolled = Some (true, m') /\
    selected nat m' = Some s' /\
    newValue s' = 1 /\ currentValue s' = 1 /\
    world m' = 2%nat.
Proof.
  edestruct (cancel_restores_newValue nat Demo.client Demo.IF_scrolled)
    as (m' & s' & H1 & H2 & H3 & H4 & H5 & H6 & H7 & H8 & H9);
    [reflexivity|reflexivity|reflexivity|intros _; reflexivity|reflexivity|].
  exists m', s'. split; [exact H1|].
  split; [unfold selected; rewrite H2, H3, H9; reflexivity|].
  rewrite H3. split; [reflexivity|]. split; [reflexivity|exact H8].
Defined.

(** C6 on IF at its last value: a further Up changes nothing. *)
Lemma scroll_value_is_clamped_witness :
  exists s',
    exec nat Demo.client Up Demo.IF_scrolled = Some (true, Demo.IF_scrolled) /\
    selected nat Demo.IF_scrolled = Some s' /\
    newValue s' = 2.
Proof.
  edestruct (scroll_value_is_clamped nat Demo.client Up 1 Demo.IF_scrolled)
    as (m' & s' & H1 & H2 & H3 & H4 & H5 & H6);
    [reflexivity|reflexivity|reflexivity|reflexivity|vm_compute; split; congruence|
     reflexivity|intros _; eexists; reflexivity|].
  rewrite (H5 eq_refl eq_refl) in H1, H2.
  exists s'. split; [exact H1|]. split; [exact H2|exact H3].
Defined.

(** C7 on the demo menu: Up, Up, Down, Down from IF visits TAPS (past the
    empty line) and AGC and comes back to IF. *)
Lemma up_down_round_trip_witness :
  moves nat Demo.client (repeat Up 2 ++ repeat Down 2)
        Demo.browsing Demo.back_at_IF /\
  currentSetting Demo.back_at_IF = currentSetting Demo.browsing.
Proof.
  assert (Hmoves : moves nat Demo.client (repeat Up 2 ++ repeat Down 2)
                     Demo.browsing Demo.back_at_IF).
  { simpl.
    eapply moves_cons; [vm_compute; reflexivity|vm_compute; discriminate|].
    eapply moves_cons; [vm_compute; reflexivity|vm_compute; discriminate|].
    eapply moves_cons; [vm_compute; reflexivity|vm_compute; discriminate|].
    eapply moves_cons; [vm_compute; reflexivity|vm_compute; discriminate|].
    apply moves_nil. }
  split; [exact Hmoves|].
  apply (up_down_round_trip nat Demo.client 2 Demo.browsing
           Demo.back_at_IF).
  - exists 32, true, 0%nat, true, (Demo.after []), Demo.menu.
    split; reflexivity.
  - reflexivity.
  - left. exact Hmoves.
Defined.

(** C8, the claim refuted: with a single setting the cursor cannot move;
    Up draws nothing and changes nothing, no drawing has failed, and the
    answer is [false]. *)
Lemma clamped_up_answers_false :
  editing Demo.single = false /\
  canUseDisplay Demo.single = true /\
  exec nat Demo.client Up Demo.single = Some (false, Demo.single).
Proof. vm_compute. auto. Qed.

(** C8 as the code has it, on the same machine and on the long menu
    without the display. *)
Lemma result_of_event_witness :
  (exists r m',
      exec nat Demo.client Up Demo.single = Some (r, m') /\
      r = false /\ m' = Demo.single) /\
  (exists r m',
      exec nat Demo.client Up Demo.dark = Some (r, m') /\
      r = in_window nat Demo.dark (currentSetting m')
          || canUseDisplay Demo.dark) /\
  (exists r m',
      exec nat Demo.client OK Demo.editing_IF = Some (r, m') /\ r = true).
Proof.
  split; [|split].
  - eexists _, _. split; [vm_compute; reflexivity|].
    exact (result_of_event nat Demo.client Up Demo.single _ _ _
             eq_refl eq_refl).
  - eexists _, _. split; [vm_compute; reflexivity|].
    exact (result_of_event nat Demo.client Up Demo.dark _ _ _
             eq_refl eq_refl).
  - eexists _, _. split; [vm_compute; reflexivity|].
    exact (result_of_event nat Demo.client OK Demo.editing_IF _ _ _
             eq_refl eq_refl).
Defined.

(** C9, the claim refuted: the cursor leaves the window of a menu of 17
    settings.  With the display in use the window is redrawn and
    [topSetting] follows; without it [displaySettings] fails and has
    stopped before any of that: nothing is drawn and [topSetting] stays
    behind, although the two machines agree on everything but the
    display.  And a row that failed keeps the loop from drawing the rows
    after it. *)
Lemma failed_redraw_stops_early :
  logic nat Demo.dark = logic nat Demo.lit /\
  (exists m',
      exec nat Demo.client Up Demo.lit = Some (true, m') /\
      currentSetting m' = 16 /\ topSetting m' = 1 /\
      (length (trace Demo.lit) < length (trace m'))%nat) /\
  (exists m',
      exec nat Demo.client Up Demo.dark = Some (false, m') /\
      currentSetting m' = 16 /\ topSetting m' = 0 /\
      trace m' = trace Demo.dark) /\
  displaySettings_loop nat 0 0 16 false Demo.lit = Some (false, Demo.lit).
Proof.
  split; [reflexivity|]. split; [|split].
  - eexists. split; [vm_compute; reflexivity|]. vm_compute.
    repeat split; lia.
  - eexists. split; [vm_compute; reflexivity|]. vm_compute. auto.
  - reflexivity.
Qed.

(** C9 as the code has it, on the same two machines. *)
Lemma display_failure_is_local_witness :
  (exists m',
      exec nat Demo.client Up Demo.dark = Some (false, m') /\
      topSetting m' = topSetting Demo.dark) /\
  (exists r1 r2 m1' m2',
      exec nat Demo.client Up Demo.dark = Some (r1, m1') /\
      exec nat Demo.client Up Demo.lit = Some (r2, m2') /\
      logic nat m1' = logic nat m2').
Proof.
  pose proof (display_failure_is_local nat Demo.client)
    as (Hoff & Hloop & Hanswer & Hsame).
  split.
  - eexists. split; [vm_compute; reflexivity|].
    eapply (Hanswer Up 1 Demo.dark);
      [reflexivity|reflexivity|reflexivity|vm_compute; reflexivity|
       vm_compute; discriminate|reflexivity].
  - eexists _, _, _, _. split; [vm_compute; reflexivity|].
    split; [vm_compute; reflexivity|].
    eapply (Hsame Up Demo.dark Demo.lit);
      [reflexivity|vm_compute; reflexivity|vm_compute; reflexivity].
Defined.

(** C10 on IF: scrolling its value while editing leaves every
    [currentValue] as it was. *)
Lemma currentValue_written_by_OK_only_witness :
  exists r m',
    exec nat Demo.client Up Demo.editing_IF = Some (r, m') /\
    currentValues nat m' = [1; 0; 0; 0].
Proof.
  eexists _, _. split; [vm_compute; reflexivity|].
  apply (currentValue_written_by_OK_only nat Demo.client Up
           Demo.editing_IF _ _ eq_refl).
  discriminate.
Defined.

(** ** Where the code leaves its documentation *)

(** C1 fails on the code: [settingsDisplayOff] while TAPS is being edited
    clears [editing] and leaves the scrolled [newValue] in place, so the
    machine is not editing and [newValue] is not [currentValue]. *)
Lemma displayOff_keeps_pending_value :
  exists m0 m s,
    start nat 32 0%nat = Some m0 /\
    run nat Demo.client (Demo.menu ++ [Up; OK; Up; DisplayOff]) m0
      = Some m /\
    editing m = false /\
    selected nat m = Some s /\
    name s = Some "TAPS"%string /\
    newValue s = 1 /\
    currentValue s = 0.
Proof.
  exists (Demo.after []). eexists _, _.
  split; [reflexivity|]. vm_compute. repeat split.
Qed.

(** C5 fails on the code: [settingsStop] while editing puts [newValue]
    back and leaves [editing] set. *)
Lemma stop_leaves_editing :
  exists m',
    editing Demo.IF_scrolled = true /\
    exec nat Demo.client Stop Demo.IF_scrolled = Some (true, m') /\
    editing m' = true.
Proof. eexists. vm_compute. repeat split. Qed.

(** * The rest of the library *)

Section Library.

Variable World : Type.
Variable callback : nat -> Setting -> World -> bool * World.

Local Abbreviation Machine := (Machine World).

(** ** Creating settings *)

Lemma createSetting_full text vs n cv live fp can0 (m : Machine) :
  nSettings m = maxSettings m ->
  createSetting World text vs n cv live fp can0 m = Some (None, m).
Proof.
  intros H. unfold createSetting, bind, get, ret.
  by rewrite (proj2 (Z.eqb_eq _ _) H).
Qed.

Lemma createSetting_room text vs n cv live fp can0 (m : Machine) a :
  settings m = Some a ->
  Z.of_nat (length a) < maxSettings m ->
  createSetting World text vs n cv live fp can0 m =
  Some (Some (Z.of_nat (length a)),
        set_settings
          (Some (a ++ [mkSetting text vs n cv cv fp live can0])) m).
Proof.
  intros Ha H. unfold createSetting, nSettings, bind, get, ret, modify.
  rewrite Ha.
  destruct (Z.eqb_spec (Z.of_nat (length a)) (maxSettings m)); [lia|].
  by rewrite (proj2 (Z.ltb_lt _ _) H).
Qed.

Lemma set_settings_same (m : Machine) a :
  settings m = Some a -> set_settings (Some a) m = m.
Proof. destruct m. simpl. by intros ->. Qed.

Lemma set_settings_twice (m : Machine) a b :
  set_settings b (set_settings a m) = set_settings b m.
Proof. reflexivity. Qed.

Lemma run_creates requests : forall (m : Machine) a,
  settings m = Some a ->
  Z.of_nat (length a) <= maxSettings m ->
  run World callback (map Create_of requests) m =
  Some (set_settings
          (Some (a ++ firstn (Z.to_nat (maxSettings m - Z.of_nat (length a)))
                         (map fresh requests))) m).
Proof.
  induction requests as [|s requests IH]; intros m a Ha Hroom; simpl.
  - by rewrite firstn_nil, app_nil_r, set_settings_same.
  - unfold bind, ret.
    destruct (Z.eq_dec (Z.of_nat (length a)) (maxSettings m)) as [Hfull|Hfree].
    + rewrite createSetting_full by (unfold nSettings; by rewrite Ha).
      rewrite (IH m a Ha Hroom).
      by replace (maxSettings m - Z.of_nat (length a)) with 0 by lia.
    + rewrite (createSetting_room _ _ _ _ _ _ _ m a Ha) by lia.
      rewrite (IH _ (a ++ [fresh s])); [|done|simpl; rewrite length_app; simpl; lia].
      simpl. rewrite set_settings_twice. do 2 f_equal.
      rewrite <- app_assoc. f_equal. rewrite length_app. simpl.
      replace (Z.to_nat (maxSettings m - Z.of_nat (length a)))
        with (S (Z.to_nat (maxSettings m - Z.of_nat (length a + 1)))) by lia.
      reflexivity.
Qed.

(** X1. After [initSettings n] the library holds exactly the first [n]
    settings that are requested, in the order of the requests, each with
    [newValue] equal to its [currentValue]; the requests beyond the [n]-th
    are answered with NULL and change nothing. *)
Theorem capacity_is_respected n w (m0 : Machine) requests :
  0 <= n ->
  start World n w = Some m0 ->
  exists m,
    run World callback (map Create_of requests) m0 = Some m /\
    settings m = Some (firstn (Z.to_nat n) (map fresh requests)) /\
    nSettings m = Z.min n (Z.of_nat (length requests)) /\
    maxSettings m = n /\
    forall s, exec World callback (Create_of s) m =
              if nSettings m =? n then Some (false, m)
              else Some (true,
                         set_settings
                           (Some (firstn (Z.to_nat n) (map fresh requests)
                                  ++ [fresh s])) m).
Proof.
  intros Hn Hstart.
  assert (Hm0 : settings m0 = Some [] /\ maxSettings m0 = n).
  { revert Hstart. unfold start, initSettings, bind, get, modify, ret. simpl.
    by intros [= <-]. }
  destruct Hm0 as [Ha Hmax].
  eexists. split; [apply (run_creates requests m0 [] Ha); simpl; lia|].
  simpl. rewrite Hmax, Z.sub_0_r.
  assert (Hlen : Z.of_nat (length (firstn (Z.to_nat n) (map fresh requests)))
                 = Z.min n (Z.of_nat (length requests))).
  { rewrite length_firstn, length_map. lia. }
  split; [done|]. split; [by unfold nSettings|]. split; [done|].
  intros s. unfold nSettings. simpl. rewrite Hlen. unfold bind, ret.
  destruct (Z.eqb_spec (Z.min n (Z.of_nat (length requests))) n) as [Hfull|Hfree].
  - rewrite createSetting_full; [done|].
    unfold nSettings. simpl. rewrite Hlen, Hmax. done.
  - erewrite createSetting_room; [|reflexivity|simpl; rewrite Hlen, Hmax; lia].
    simpl. by rewrite set_settings_twice.
Qed.

End Library.

(** ** Computations that keep a relation *)

Section Keeps.

Variable World : Type.
Variable R : Machine World -> Machine World -> Prop.
Context `{!PreOrder R}.

Lemma keeps_ret {A : Type} (a : A) : keeps World R (ret a).
Proof using PreOrder0. intros m b m' [= _ <-]. reflexivity. Qed.

Lemma keeps_undefined {A : Type} : keeps World R (@undefined World A).
Proof using Type. by intros m b m'. Qed.

Lemma keeps_get : keeps World R get.
Proof using PreOrder0. intros m b m' [= _ <-]. reflexivity. Qed.

Lemma keeps_lift {A : Type} (o : option A) : keeps World R (lift o).
Proof using PreOrder0.
  intros m b m'. unfold lift. destruct o; [|done].
  intros [= _ <-]. reflexivity.
Qed.

Lemma keeps_modify (f : Machine World -> Machine World) :
  (forall m, R m (f m)) -> keeps World R (modify f).
Proof using Type. intros H m b m' [= _ <-]. apply H. Qed.

Lemma keeps_bind {A B : Type} (c : M World A) (f : A -> M World B) :
  keeps World R c -> (forall a, keeps World R (f a)) ->
  keeps World R (bind c f).
Proof using PreOrder0.
  intros Hc Hf m b m'. unfold bind.
  destruct (c m) as [[a m1]|] eqn:E; [|done].
  intros H. transitivity m1; [by eapply Hc|by eapply Hf].
Qed.

Lemma keeps_and_then (result : bool) (f : M World bool) :
  keeps World R f -> keeps World R (and_then World result f).
Proof using PreOrder0.
  intros Hf. unfold and_then. destruct result; [done|apply keeps_ret].
Qed.

End Keeps.

(** One step through a computation built from the pieces above. *)
Ltac keeps_step :=
  lazymatch goal with
  | |- keeps _ _ (bind _ _) =>
      apply keeps_bind; [typeclasses eauto| |intros ?]
  | |- keeps _ _ (ret _) => apply keeps_ret; typeclasses eauto
  | |- keeps _ _ undefined => apply keeps_undefined
  | |- keeps _ _ get => apply keeps_get; typeclasses eauto
  | |- keeps _ _ (lift _) => apply keeps_lift; typeclasses eauto
  | |- keeps _ _ (and_then _ _ _) =>
      apply keeps_and_then; [typeclasses eauto|]
  | |- keeps _ _ (match ?x with _ => _ end) => destruct x
  end.

Section Dark.

Variable World : Type.
Variable callback : nat -> Setting -> World -> bool * World.

Local Abbreviation Machine := (Machine World).

(** ** Nothing is drawn while the display belongs to someone else *)

Lemma drawn_app (t u : list Event) : drawn (t ++ u) = drawn t ++ drawn u.
Proof. apply List.filter_app. Qed.

#[local] Instance stays_dark_preorder : PreOrder (stays_dark World).
Proof.
  split.
  - by intros m Hm.
  - intros m1 m2 m3 H12 H23 H1.
    destruct (H12 H1) as [H2 D2]. destruct (H23 H2) as [H3 D3].
    split; [done|congruence].
Qed.

Lemma printAt_dark x y text clean fg bg leading :
  keeps World (stays_dark World) (printAt World x y text clean fg bg leading).
Proof.
  intros m r m'. unfold printAt, bind, get, ret. intros H Hd. revert H.
  rewrite Hd. simpl. by intros [= _ <-].
Qed.

Lemma displaySettings_dark first :
  keeps World (stays_dark World) (displaySettings World first).
Proof.
  intros m r m'. unfold displaySettings, bind, get, ret. intros H Hd.
  revert H. rewrite Hd. simpl. by intros [= _ <-].
Qed.

Lemma getSetting_dark i : keeps World (stays_dark World) (getSetting World i).
Proof. unfold getSetting. repeat keeps_step. Qed.

Lemma putSetting_dark i s :
  keeps World (stays_dark World) (putSetting World i s).
Proof.
  unfold putSetting. repeat keeps_step. by apply keeps_modify.
Qed.

Lemma callFPtr_dark s :
  keeps World (stays_dark World) (callFPtr World callback s).
Proof.
  unfold callFPtr. repeat keeps_step.
  apply keeps_modify. intros m Hd. split; [done|]. simpl.
  by rewrite drawn_app, app_nil_r.
Qed.

Lemma displayValue_dark i row clean fg bg :
  keeps World (stays_dark World) (displayValue World i row clean fg bg).
Proof.
  unfold displayValue. repeat keeps_step;
    auto using getSetting_dark, printAt_dark.
Qed.

Lemma highlightValue_dark : keeps World (stays_dark World) (highlightValue World).
Proof.
  unfold highlightValue. repeat keeps_step;
    auto using getSetting_dark, displayValue_dark.
Qed.

Lemma selectSetting_dark on :
  keeps World (stays_dark World) (selectSetting World on).
Proof. unfold selectSetting. repeat keeps_step. apply printAt_dark. Qed.

Lemma scrollValue_dark d :
  keeps World (stays_dark World) (scrollValue World callback d).
Proof.
  unfold scrollValue. repeat keeps_step;
    auto using getSetting_dark, putSetting_dark, callFPtr_dark,
      highlightValue_dark.
Qed.

Lemma scrollSetting_loop_dark d fuel : forall n,
  keeps World (stays_dark World) (scrollSetting_loop World d n fuel).
Proof.
  induction fuel as [|fuel IH]; intros n; simpl; repeat keeps_step;
    auto using getSetting_dark.
Qed.

Lemma scrollSetting_dark d :
  keeps World (stays_dark World) (scrollSetting World d).
Proof.
  unfold scrollSetting. repeat keeps_step;
    auto using scrollSetting_loop_dark, selectSetting_dark,
      displaySettings_dark.
  by apply keeps_modify.
Qed.

Lemma settingsOK_dark :
  keeps World (stays_dark World) (settingsOK World callback).
Proof.
  unfold settingsOK. repeat keeps_step;
    auto using getSetting_dark, putSetting_dark, callFPtr_dark,
      highlightValue_dark.
  all: by apply keeps_modify.
Qed.

Lemma settingsStop_dark :
  keeps World (stays_dark World) (settingsStop World callback).
Proof.
  unfold settingsStop, resetNewValue. repeat keeps_step;
    auto using getSetting_dark, putSetting_dark, callFPtr_dark.
Qed.

Lemma createSetting_dark text vs n cv live fp can0 :
  keeps World (stays_dark World)
    (createSetting World text vs n cv live fp can0).
Proof.
  unfold createSetting. repeat keeps_step. by apply keeps_modify.
Qed.

(** X2. While the library may not use the display, no operation but
    [settingsDisplayOn] draws anything or takes the display: the display
    operations in the trace stay as they are. *)
Theorem nothing_drawn_without_display o (m m' : Machine) r :
  o <> DisplayOn ->
  canUseDisplay m = false ->
  exec World callback o m = Some (r, m') ->
  canUseDisplay m' = false /\ drawn (trace m') = drawn (trace m).
Proof.
  intros Ho Hd H. revert Hd.
  change (stays_dark World m m'). revert m r m' H.
  change (keeps World (stays_dark World) (exec World callback o)).
  destruct o; simpl; try done.
  - repeat keeps_step. apply createSetting_dark.
  - unfold settingsDisplayOff. repeat keeps_step; by apply keeps_modify.
  - unfold settingsUp. repeat keeps_step;
      auto using scrollValue_dark, scrollSetting_dark.
  - unfold settingsDown. repeat keeps_step;
      auto using scrollValue_dark, scrollSetting_dark.
  - apply settingsOK_dark.
  - apply settingsStop_dark.
Qed.

End Dark.

Section Frames.

Variable World : Type.
Variable callback : nat -> Setting -> World -> bool * World.

Local Abbreviation Machine := (Machine World).

(** ** When the client is called *)

(** X3. Outside an edit the client's functions are never called: no
    operation on a browsing machine adds a call to the trace or changes
    the client's state. *)
Theorem client_called_only_while_editing o (m m' : Machine) r :
  editing m = false ->
  exec World callback o m = Some (r, m') ->
  calls (trace m') = calls (trace m) /\ world m' = world m.
Proof.
  intros He H. apply exec_logic in H.
  pose proof (f_equal (l_calls World) H) as Hc.
  pose proof (f_equal (l_world World) H) as Hw.
  simpl in Hc, Hw. rewrite Hc, Hw. clear H Hc Hw.
  destruct o; simpl; rewrite ?He; try done.
  - unfold l_createSetting. simpl.
    destruct (settings m); [|done]. by destruct (_ <? _).
  - unfold l_scrollSetting. by destruct (search _ _ _ _) as [[j|]|].
  - unfold l_scrollSetting. by destruct (search _ _ _ _) as [[j|]|].
  - unfold l_settingsOK. simpl. by rewrite He.
  - unfold l_settingsStop. simpl. by rewrite He.
Qed.

(** ** The entries an operation leaves alone *)

Lemma l_settingsOK_others (L : Logic World) i :
  i <> l_currentSetting World L ->
  index (entries (l_settings World (l_settingsOK World callback L))) i =
  index (entries (l_settings World L)) i.
Proof.
  intros Hi. unfold l_settingsOK. destruct (l_editing World L); [|done].
  destruct (l_selected World L) as [s|] eqn:Hs; [|done].
  apply l_selected_entries in Hs. simpl.
  destruct (_ =? _); [done|].
  destruct (liveUpdate s).
  - by apply (l_put_same_others World s).
  - pose proof (l_call_same_others World callback s L) as (_ & C2 & I2).
    pose proof (l_call_settings World callback s L) as H3.
    destruct (l_call _ _ _ _) as [accepted L1]. simpl in C2, I2, H3.
    rewrite <- (I2 i Hi). rewrite <- C2.
    apply (l_put_same_others World s); [|congruence].
    by rewrite C2, H3.
Qed.

Lemma l_exec_others o (L : Logic World) i s :
  i <> l_currentSetting World L ->
  index (entries (l_settings World L)) i = Some s ->
  index (entries (l_settings World (l_exec World callback o L))) i = Some s.
Proof.
  intros Hi Hs. destruct o; simpl; try done.
  - unfold l_createSetting.
    destruct (l_settings World L) as [a|] eqn:Ha; [|by rewrite Ha].
    destruct (_ <? _); [|by rewrite Ha]. by apply index_app_l.
  - destruct (l_editing World L).
    + by rewrite (proj2 (proj2 (l_scrollValue_same_others World callback 1 L))).
    + by rewrite l_scrollSetting_settings.
  - destruct (l_editing World L).
    + by rewrite (proj2 (proj2
                    (l_scrollValue_same_others World callback (-1) L))).
    + by rewrite l_scrollSetting_settings.
  - by rewrite l_settingsOK_others.
  - by rewrite (proj2 (proj2 (l_settingsStop_same_others World callback L))).
Qed.

(** X4. No operation touches a setting other than the one under the
    cursor: every other entry is the same before and after, whatever the
    mode, the display and the client do. *)
Theorem other_settings_untouched o (m m' : Machine) r i s :
  exec World callback o m = Some (r, m') ->
  i <> currentSetting m ->
  index (entries (settings m)) i = Some s ->
  index (entries (settings m')) i = Some s.
Proof.
  intros H Hi Hs. apply exec_logic in H.
  change (settings m') with (l_settings World (logic World m')).
  rewrite H. by apply l_exec_others.
Qed.

End Frames.

Section Entries.

Variable World : Type.
Variable callback : nat -> Setting -> World -> bool * World.

Local Abbreviation Machine := (Machine World).

(** ** What can happen to one entry *)

Lemma entries_selected (L : Logic World) s :
  index (entries (l_settings World L)) (l_currentSetting World L) = Some s ->
  l_selected World L = Some s.
Proof.
  unfold l_selected. destruct (l_settings World L); [done|].
  simpl. unfold index. destruct (_ <? _); [done|]. by rewrite lookup_nil.
Qed.

Section Closed.

(** A property of settings that survives the four ways the menu writes
    to a setting. *)
Variable P : Setting -> Prop.
Hypothesis P_can : forall x b, P x -> P (set_can b x).
Hypothesis P_scroll : forall x d,
  d = 1 \/ d = -1 ->
  P x -> P (set_newValue (scrolled d (newValue x) (nValues x)) x).
Hypothesis P_revert : forall x, P x -> P (set_newValue (currentValue x) x).
Hypothesis P_commit : forall x, P x -> P (set_currentValue (newValue x) x).

Lemma l_scrollValue_selected d (L : Logic World) s :
  d = 1 \/ d = -1 ->
  l_selected World L = Some s -> P s ->
  exists s',
    index (entries (l_settings World (l_scrollValue World callback d L)))
          (l_currentSetting World L) = Some s' /\ P s'.
Proof using P_can P_scroll.
  intros Hd Hsel HP. unfold l_scrollValue. rewrite Hsel.
  pose proof (l_selected_entries World L s Hsel) as Hs.
  destruct (_ =? _); [by exists s|].
  set (s1 := set_newValue (scrolled d (newValue s) (nValues s)) s).
  assert (HP1 : P s1) by (by apply P_scroll).
  destruct (liveUpdate s).
  - pose proof (l_call_settings World callback s1
                  (l_put World (l_currentSetting World L) s1 L)) as H3.
    destruct (l_call _ _ _ _) as [accepted L2]. simpl in H3.
    exists (set_can accepted s1). split; [|by apply P_can].
    apply (l_put_index World _ s1). rewrite H3. by eapply l_put_index.
  - exists s1. split; [by eapply l_put_index|done].
Qed.

Lemma l_settingsOK_selected (L : Logic World) s :
  l_selected World L = Some s -> P s ->
  exists s',
    index (entries (l_settings World (l_settingsOK World callback L)))
          (l_currentSetting World L) = Some s' /\ P s'.
Proof using P_revert P_commit.
  intros Hsel HP. unfold l_settingsOK.
  pose proof (l_selected_entries World L s Hsel) as Hs.
  destruct (l_editing World L); [|by exists s].
  rewrite Hsel. simpl.
  destruct (_ =? _); [by exists s|].
  destruct (liveUpdate s).
  - eexists. split; [by eapply l_put_index|]. destruct (can s); auto.
  - pose proof (l_call_settings World callback s L) as H3.
    destruct (l_call _ _ _ _) as [accepted L1]. simpl in H3.
    eexists. split; [apply (l_put_index World _ s); by rewrite H3|].
    destruct accepted; auto.
Qed.

Lemma l_settingsStop_selected (L : Logic World) s :
  l_selected World L = Some s -> P s ->
  exists s',
    index (entries (l_settings World (l_settingsStop World callback L)))
          (l_currentSetting World L) = Some s' /\ P s'.
Proof using P_revert.
  intros Hsel HP. unfold l_settingsStop.
  pose proof (l_selected_entries World L s Hsel) as Hs.
  destruct (l_editing World L); [|by exists s].
  rewrite Hsel.
  exists (set_newValue (currentValue s) s). split; [|by apply P_revert].
  destruct (_ && _).
  - rewrite l_call_settings. by eapply l_put_index.
  - by eapply l_put_index.
Qed.

Lemma l_exec_entry o (L : Logic World) i s :
  index (entries (l_settings World L)) i = Some s -> P s ->
  exists s',
    index (entries (l_settings World (l_exec World callback o L))) i
      = Some s' /\ P s'.
Proof using P_can P_scroll P_revert P_commit.
  intros Hs HP.
  destruct (Z.eq_dec i (l_currentSetting World L)) as [->|Hi].
  2: { exists s. split; [by apply l_exec_others|done]. }
  pose proof (entries_selected L s Hs) as Hsel.
  destruct o; simpl.
  - exists s. split; [|done]. unfold l_createSetting. revert Hs.
    destruct (l_settings World L) as [a|] eqn:Ha; [|by rewrite Ha].
    destruct (_ <? _); [|by rewrite Ha]. apply index_app_l.
  - by exists s.
  - by exists s.
  - destruct (l_editing World L).
    + apply (l_scrollValue_selected _ L s); auto.
    + exists s. by rewrite l_scrollSetting_settings.
  - destruct (l_editing World L).
    + apply (l_scrollValue_selected _ L s); auto.
    + exists s. by rewrite l_scrollSetting_settings.
  - by apply (l_settingsOK_selected L s).
  - by apply (l_settingsStop_selected L s).
Qed.

End Closed.

Lemma scrolled_bounded d v n :
  0 <= v < n -> d = 1 \/ d = -1 -> 0 <= scrolled d v n < n.
Proof.
  intros Hv Hd. rewrite scrolled_clamp by done. destruct Hd; subst; lia.
Qed.

(** X5. A setting is never removed, renamed or given other values, and
    once both of its indices lie inside its array of values they stay
    there through every operation: the menu never leaves a setting
    pointing outside [values]. *)
Theorem setting_stays_in_bounds o (m m' : Machine) r i s :
  exec World callback o m = Some (r, m') ->
  index (entries (settings m)) i = Some s ->
  exists s',
    index (entries (settings m')) i = Some s' /\
    same_setting s s' /\
    (bounded s -> bounded s').
Proof.
  intros H Hs. apply exec_logic in H.
  change (settings m') with (l_settings World (logic World m')).
  rewrite H.
  apply (l_exec_entry (fun x => same_setting s x /\ (bounded s -> bounded x)))
    with (s := s); try done.
  - intros x d Hd [Hsame Hb]. split; [done|].
    intros Hbs. destruct (Hb Hbs) as [Hc Hn]. split; [done|]. simpl.
    by apply scrolled_bounded.
  - intros x [Hsame Hb]. split; [done|].
    intros Hbs. by destruct (Hb Hbs).
  - intros x [Hsame Hb]. split; [done|].
    intros Hbs. by destruct (Hb Hbs).
Qed.

(** ** The mode *)

Lemma settingsOK_toggles (m m' : Machine) r :
  settingsOK World callback m = Some (r, m') ->
  editing m' = negb (editing m).
Proof.
  unfold settingsOK, bind, get, ret, modify.
  match goal with
  | |- match ?c with _ => _ end = _ -> _ =>
      destruct c as [[u m1]|]; [|done]
  end.
  destruct (highlightValue World _) as [[r1 m2]|] eqn:E; [|done].
  intros [= _ <-].
  by apply highlightValue_paints in E as [(es & -> & _) _].
Qed.

(** X6. [editing] is switched by [settingsOK], which always toggles it,
    and cleared by [settingsDisplayOff]; creating a setting, taking the
    display, Up and Down leave it alone. *)
Theorem mode_switches o (m m' : Machine) r :
  o <> Stop ->
  exec World callback o m = Some (r, m') ->
  editing m' =
    match o with
    | OK => negb (editing m)
    | DisplayOff => false
    | _ => editing m
    end.
Proof.
  intros Ho H. destruct o; try done.
  - apply exec_logic in H. apply (f_equal (l_editing World)) in H.
    simpl in H. rewrite H. unfold l_createSetting. simpl.
    destruct (settings m); [|done]. by destruct (_ <? _).
  - apply exec_logic in H. by apply (f_equal (l_editing World)) in H.
  - apply exec_logic in H. by apply (f_equal (l_editing World)) in H.
  - apply exec_logic in H. apply (f_equal (l_editing World)) in H.
    simpl in H. rewrite H. destruct (editing m) eqn:He.
    + destruct (l_scrollValue_same_others World callback 1 (logic World m))
        as (E & _).
      rewrite E. exact He.
    + unfold l_scrollSetting. destruct (search _ _ _ _) as [[j|]|]; exact He.
  - apply exec_logic in H. apply (f_equal (l_editing World)) in H.
    simpl in H. rewrite H. destruct (editing m) eqn:He.
    + destruct (l_scrollValue_same_others World callback (-1) (logic World m))
        as (E & _).
      rewrite E. exact He.
    + unfold l_scrollSetting. destruct (search _ _ _ _) as [[j|]|]; exact He.
  - by apply settingsOK_toggles in H.
Qed.

(** ** Pending values *)

(** X7. Every operation, except [settingsDisplayOff] during an edit,
    keeps this invariant: each setting other than the one being edited
    has [newValue] equal to [currentValue]. *)
Theorem pending_values_settled o (m m' : Machine) r :
  exec World callback o m = Some (r, m') ->
  (o = DisplayOff -> editing m = false) ->
  (forall i s,
      index (entries (settings m)) i = Some s ->
      (editing m = true -> i <> currentSetting m) ->
      newValue s = currentValue s) ->
  forall i s,
    index (entries (settings m')) i = Some s ->
    (editing m' = true -> i <> currentSetting m') ->
    newValue s = currentValue s.
Proof.
  intros H Hoff Hm. apply exec_logic in H.
  change (settled World (logic World m')). rewrite H.
  by apply l_exec_settled.
Qed.

(** ** The cursor *)

(** X8. In every machine the public operations lead to, the cursor is
    either where it started, at 0, or on a setting with a name inside the
    array: it never rests on an empty line it has moved to, and never
    outside [settings]. *)
Theorem cursor_rests_on_a_name (m : Machine) :
  reachable World callback m ->
  currentSetting m = 0 \/
  (0 < currentSetting m < nSettings m /\
   named (entries (settings m)) (currentSetting m)).
Proof.
  intros H. apply reachable_cursor_ok in H as [H0|Hn]; [by left|].
  simpl in Hn. destruct (Z.eq_dec (currentSetting m) 0) as [->|Hne];
    [by left|right].
  split; [|done]. destruct Hn as (s & Hs & _). apply index_Some in Hs.
  unfold nSettings. destruct (settings m); simpl in *; lia.
Qed.

End Entries.

Section Screen.

Variable World : Type.
Variable callback : nat -> Setting -> World -> bool * World.

Local Abbreviation Machine := (Machine World).

(** ** Where the cursor goes *)

Lemma search_clamped d a fuel : forall n,
  d = 1 \/ d = -1 ->
  search d a n fuel = Some None ->
  forall t, named a t -> (t - n) * d <= 0.
Proof.
  induction fuel as [|fuel IH]; intros n Hd; [done|].
  rewrite search_S.
  destruct (_ || _) eqn:Hgo.
  - destruct (index a (n + d)) as [s|] eqn:Hs; [|done].
    destruct (name s) eqn:Hn; [done|].
    intros H t Ht. pose proof (IH (n + d) Hd H t Ht) as Hle.
    assert (t <> n + d).
    { intros ->. apply (named_not_separator a (n + d) Ht). by exists s. }
    destruct Hd as [-> | ->]; lia.
  - intros _ t (s & Hs & _). apply index_Some in Hs.
    destruct Hd as [-> | ->]; simpl in Hgo.
    + rewrite orb_false_r in Hgo. apply Z.ltb_ge in Hgo. lia.
    + rewrite Z.gtb_ltb in Hgo. apply Z.ltb_ge in Hgo. lia.
Qed.

(** X9. Up and Down while browsing take the cursor to the nearest setting
    with a name on that side (higher indices for Up, lower for Down),
    passing over the empty lines in between and leaving every setting as
    it is.  When no setting with a name lies on that side the cursor
    stays, the answer is [false] and nothing at all changes. *)
Theorem browsing_goes_to_next_name o d (m m' : Machine) r :
  amount o = Some d ->
  editing m = false ->
  exec World callback o m = Some (r, m') ->
  if currentSetting m' =? currentSetting m
  then r = false /\ m' = m /\
       forall t, named (entries (settings m)) t ->
                 (t - currentSetting m) * d <= 0
  else next_named d (entries (settings m)) (currentSetting m)
                  (currentSetting m') /\
       settings m' = settings m.
Proof.
  intros Ho He H. pose proof (amount_unit o d Ho) as Hd.
  rewrite (exec_browsing World callback o d m Ho He) in H.
  apply scrollSetting_inv in H.
  destruct (search _ _ _ _) as [[j|]|] eqn:Hfind; [| |done].
  - pose proof (search_direction _ _ _ _ _ Hfind) as Hdir.
    destruct (Z.eqb_spec j (currentSetting m)) as [Hj|Hj].
    { destruct Hd as [-> | ->]; lia. }
    destruct H as (Hc & HL & _). rewrite Hc.
    destruct (Z.eqb_spec j (currentSetting m)) as [|_]; [done|].
    split; [by eapply search_next_named|].
    exact (f_equal (l_settings World) HL).
  - destruct H as [-> ->]. rewrite Z.eqb_refl.
    split; [done|]. split; [done|]. by eapply search_clamped.
Qed.

(** ** The window follows the cursor *)

Lemma TFT_LINES_is_16 : TFT_LINES = 16.
Proof. reflexivity. Qed.

(** X10. While the library may use the display, a cursor that moves is on
    the display afterwards: the window stays where it is when the new
    selection is already inside, and otherwise moves just far enough to
    have it on its first or its last line.  The answer is [true]. *)
Theorem window_follows_cursor o d (m m' : Machine) r :
  amount o = Some d ->
  editing m = false ->
  canUseDisplay m = true ->
  exec World callback o m = Some (r, m') ->
  currentSetting m' <> currentSetting m ->
  r = true /\
  in_window World m' (currentSetting m') = true /\
  topSetting m' =
    (if in_window World m (currentSetting m') then topSetting m
     else if currentSetting m' <? topSetting m then currentSetting m'
          else currentSetting m' - (TFT_LINES - 1)).
Proof.
  intros Ho He Hc H Hmoved.
  rewrite (exec_browsing World callback o d m Ho He) in H.
  apply browse_result in H; [|by eapply amount_unit].
  destruct (Z.eqb_spec (currentSetting m') (currentSetting m)); [done|].
  destruct H as [-> Htop]. rewrite Hc, orb_true_r in *. simpl in Htop.
  rewrite orb_false_r in Htop. split; [done|].
  assert (Htop' : topSetting m' =
    (if in_window World m (currentSetting m') then topSetting m
     else if currentSetting m' <? topSetting m then currentSetting m'
          else currentSetting m' - (TFT_LINES - 1))).
  { rewrite Htop. destruct (in_window World m _); [done|].
    destruct (_ <? _); [done|]. lia. }
  split; [|done]. unfold in_window at 1. rewrite Htop'.
  destruct (in_window World m (currentSetting m')) eqn:Hin.
  - exact Hin.
  - rewrite TFT_LINES_is_16. destruct (Z.ltb_spec (currentSetting m') (topSetting m)).
    + rewrite (proj2 (Z.leb_le _ _)), (proj2 (Z.ltb_lt _ _)) by lia. done.
    + rewrite (proj2 (Z.leb_le _ _)), (proj2 (Z.ltb_lt _ _)) by lia. done.
Qed.

End Screen.

Section Drawing.

Variable World : Type.
Variable callback : nat -> Setting -> World -> bool * World.

Local Abbreviation Machine := (Machine World).

(** ** The value cell *)

Lemma to_int_to_size_t z :
  - 2 ^ 31 <= z < 2 ^ 31 -> to_int (to_size_t z) = z.
Proof.
  intros Hz. unfold to_int, to_size_t.
  rewrite Zplus_mod_idemp_l. rewrite Z.mod_small; lia.
Qed.

Lemma value_cell_ops row v fg bg :
  strlen v < 2 ^ 31 ->
  printAt_ops 19 row v true fg bg
              (to_int (to_size_t (TFT_CHARS - 19 - strlen v))) =
  [FillRect (19 * CHAR_WIDTH) (row * CHAR_HEIGHT) (7 * CHAR_WIDTH)
            CHAR_HEIGHT bg;
   SetCursor (19 * CHAR_WIDTH) (row * CHAR_HEIGHT);
   SetTextColor fg] ++
  repeat (Print " ") (Z.to_nat (7 - strlen v)) ++ [Print v].
Proof.
  intros Hv. assert (0 <= strlen v) by (unfold strlen; lia).
  unfold printAt_ops.
  rewrite to_int_to_size_t by (unfold TFT_CHARS; lia).
  replace (strlen v + (TFT_CHARS - 19 - strlen v)) with 7
    by (unfold TFT_CHARS; lia).
  reflexivity.
Qed.

(** X11. [highlightValue] redraws the value of the selected setting, the
    one at [newValue]: it clears a cell seven characters wide at column 19
    of the cursor's row, whatever the length of the text, and prints the
    text right-aligned in it (a text of more than seven characters starts
    at column 19 and runs over).  The colour is WHITE outside an edit,
    BLUE in an edit while [newValue] is [currentValue], RED otherwise. *)
Theorem value_cell_redrawn (m : Machine) a s v :
  settings m = Some a ->
  index a (currentSetting m) = Some s ->
  index (values s) (newValue s) = Some v ->
  strlen v < 2 ^ 31 ->
  canUseDisplay m = true ->
  highlightValue World m =
  Some (true,
        log ([FillRect (19 * CHAR_WIDTH)
                       ((currentSetting m - topSetting m) * CHAR_HEIGHT)
                       (7 * CHAR_WIDTH) CHAR_HEIGHT BLACK;
              SetCursor (19 * CHAR_WIDTH)
                        ((currentSetting m - topSetting m) * CHAR_HEIGHT);
              SetTextColor
                (if editing m
                 then if currentValue s =? newValue s then BLUE else RED
                 else WHITE)] ++
             repeat (Print " ") (Z.to_nat (7 - strlen v)) ++ [Print v]) m).
Proof.
  intros Ha Hs Hv Hlen Hc.
  unfold highlightValue, displayValue, getSetting, and_then, printAt, bind,
    get, lift, ret, emit, modify.
  destruct (editing m); rewrite ?Ha, ?Hs; simpl; rewrite ?Ha, ?Hs, ?Hv;
    simpl; rewrite ?Ha, ?Hs, ?Hv, ?Hc; simpl; rewrite ?Hc; simpl;
    by rewrite value_cell_ops.
Qed.

(** ** Entering an edit *)

Lemma highlightValue_reads (m : Machine) :
  is_Some (highlightValue World m) ->
  settings m <> None ->
  exists s v,
    selected World m = Some s /\ index (values s) (newValue s) = Some v.
Proof.
  unfold highlightValue, displayValue, getSetting, and_then, bind, get,
    lift, ret, undefined, selected.
  intros [x H] Ha. revert H.
  destruct (settings m) as [a|] eqn:Hset; [clear Ha|done].
  destruct (index a (currentSetting m)) as [s|] eqn:Hs.
  - destruct (index (values s) (newValue s)) as [v|] eqn:Hv; [by eauto|].
    destruct (editing m); simpl; rewrite ?Hset, ?Hs; simpl;
      rewrite ?Hset, ?Hs, ?Hv; simpl; rewrite ?Hset, ?Hs, ?Hv; done.
  - destruct (editing m); simpl; rewrite ?Hset, ?Hs; simpl;
      rewrite ?Hset, ?Hs; done.
Qed.

(** X12. [settingsOK] on a browsing machine starts an edit exactly when
    the entry under the cursor exists and has a value at its [newValue].
    There is no check in the code: with no setting created yet, or with
    the cursor on an empty line (created with [values] NULL), the
    operation reads outside its arrays. *)
Theorem OK_needs_a_value_to_show (m : Machine) :
  editing m = false ->
  is_Some (exec World callback OK m) <->
  exists s v,
    selected World m = Some s /\ index (values s) (newValue s) = Some v.
Proof.
  intros He. split.
  - simpl. unfold settingsOK, bind, get, ret, modify. rewrite He. simpl.
    intros [x H].
    destruct (highlightValue World (set_editing true m)) as [[r1 m1]|] eqn:E;
      [|done].
    destruct (settings m) as [a|] eqn:Ha.
    + apply (highlightValue_reads (set_editing true m)); [by eauto|].
      simpl. by rewrite Ha.
    + exfalso. revert E.
      unfold highlightValue, getSetting, bind, get, undefined. simpl.
      by rewrite Ha.
  - intros (s & v & Hsel & Hv). unfold selected in Hsel.
    destruct (settings m) as [a|] eqn:Ha; [|done].
    destruct (settingsOK_enter World callback m a s v Ha Hsel Hv He)
      as (m' & H & _).
    simpl. rewrite H. by eauto.
Qed.

(** ** Taking the display *)


(** X13. [settingsDisplayOn] takes the display, clears the screen and
    redraws from the [topSetting] it finds, which it leaves as it is
    (a cursor that left the window while the display was away is not
    brought back); it changes no setting, does not move the cursor, calls
    no client function and, once settings exist, answers [true]. *)
Theorem displayOn_redraws_in_place (m m' : Machine) r :
  settingsDisplayOn World m = Some (r, m') ->
  canUseDisplay m' = true /\
  topSetting m' = topSetting m /\
  logic World m' = logic World m /\
  (settings m <> None -> r = true) /\
  exists es,
    trace m' = trace m ++ FillScreen ST7735_BLACK :: es /\ calls es = [].
Proof.
  unfold settingsDisplayOn, and_then, displaySettings, bind, get, modify,
    ret, emit.
  simpl.
  destruct (displaySettings_loop World _ _ _ _ _) as [[r1 m1]|] eqn:E1;
    [|done].
  apply displaySettings_loop_paints in E1 as [(es1 & -> & Hes1) R1].
  destruct (selectSetting World true _) as [[r2 m2]|] eqn:E2; [|done].
  apply selectSetting_paints in E2 as [_ (es2 & -> & Hes2)].
  intros [= <- <-]. simpl.
  split; [done|]. split; [done|]. split.
  { unfold logic. simpl.
    by rewrite !calls_app, Hes1, Hes2, !app_nil_r. }
  split.
  { intros Ha. destruct r1; [done|].
    destruct (R1 eq_refl) as [|Hn]; [done|]. simpl in Hn. done. }
  exists (es1 ++ es2). split.
  - by rewrite <- !app_assoc.
  - by rewrite calls_app, Hes1, Hes2.
Qed.

End Drawing.

Section Marker.

Variable World : Type.
Variable callback : nat -> Setting -> World -> bool * World.

Local Abbreviation Machine := (Machine World).

(** ** The cursor's mark *)

Lemma selectSetting_owned on (m : Machine) :
  canUseDisplay m = true ->
  selectSetting World on m =
  Some (true,
        log [FillRect 0 ((currentSetting m - topSetting m) * CHAR_HEIGHT)
                      CHAR_WIDTH CHAR_HEIGHT BLACK;
             SetCursor 0 ((currentSetting m - topSetting m) * CHAR_HEIGHT);
             SetTextColor WHITE;
             Print (if on then ">" else " ")%string] m).
Proof.
  intros Hc.
  unfold selectSetting, and_then, printAt, bind, get, ret, emit, modify.
  rewrite Hc. simpl. by destruct on.
Qed.

(** X14. While the library may use the display, a cursor that moves to a
    line already on the display is redrawn with two writes and no more:
    a blank over the mark on the old line, then [>] on the new line; the
    window stays. *)
Theorem cursor_mark_moves o d (m m' : Machine) r :
  amount o = Some d ->
  editing m = false ->
  canUseDisplay m = true ->
  exec World callback o m = Some (r, m') ->
  currentSetting m' <> currentSetting m ->
  in_window World m (currentSetting m') = true ->
  trace m' =
    trace m ++
    [FillRect 0 ((currentSetting m - topSetting m) * CHAR_HEIGHT)
              CHAR_WIDTH CHAR_HEIGHT BLACK;
     SetCursor 0 ((currentSetting m - topSetting m) * CHAR_HEIGHT);
     SetTextColor WHITE;
     Print " ";
     FillRect 0 ((currentSetting m' - topSetting m) * CHAR_HEIGHT)
              CHAR_WIDTH CHAR_HEIGHT BLACK;
     SetCursor 0 ((currentSetting m' - topSetting m) * CHAR_HEIGHT);
     SetTextColor WHITE;
     Print ">"] /\
  topSetting m' = topSetting m.
Proof.
  intros Ho He Hc H Hmoved Hin.
  rewrite (exec_browsing World callback o d m Ho He) in H.
  pose proof (scrollSetting_inv World d m m' r H) as Hinv.
  revert H. unfold scrollSetting, bind, get, modify, ret.
  rewrite loop_search, nSettings_entries.
  destruct (search _ _ _ _) as [[j|]|] eqn:Hfind; [| |done].
  - destruct (Z.eqb_spec j (currentSetting m)) as [Hj|Hj].
    { by destruct Hinv as [_ ->]. }
    destruct Hinv as (Hcur & _). rewrite Hcur in Hin. simpl.
    rewrite (selectSetting_owned false m Hc). simpl.
    unfold in_window in Hin. apply andb_prop in Hin as [Hlo Hhi].
    apply Z.leb_le in Hlo. apply Z.ltb_lt in Hhi.
    rewrite (proj2 (Z.ltb_ge _ _)) by lia.
    destruct (Z.geb_spec j (topSetting m + TFT_LINES)) as [|_]; [lia|].
    unfold and_then. simpl.
    rewrite selectSetting_owned by done. simpl.
    intros [= _ <-]. simpl. split; [|done].
    by rewrite <- app_assoc.
  - by destruct Hinv as [_ ->].
Qed.

(** ** A failed [initSettings] *)


End Marker.

Section Safety.

Variable World : Type.
Variable callback : nat -> Setting -> World -> bool * World.

Local Abbreviation Machine := (Machine World).

(** ** The display functions read inside the arrays *)








(** ** The search reads inside the array *)




End Safety.

Section Sound.

Variable World : Type.
Variable callback : nat -> Setting -> World -> bool * World.

Local Abbreviation Machine := (Machine World).

(** ** Sound settings stay sound *)














(** ** The cursor stays on a name during an edit *)



End Sound.

Section Inside.

Variable World : Type.
Variable callback : nat -> Setting -> World -> bool * World.

Local Abbreviation Machine := (Machine World).

(** ** Who moves the window *)

#[local] Instance same_window_preorder : PreOrder (same_window World).
Proof.
  split.
  - by intros m.
  - intros m1 m2 m3 H12 H23. unfold same_window in *. congruence.
Qed.





(** ** Every operation is defined on a well-formed machine *)







(** The machine [initSettings] leaves is well-formed. *)
Lemma start_well_formed n w (m : Machine) :
  0 <= n -> start World n w = Some m -> well_formed World m.
Proof.
  intros Hn. unfold start, initSettings, bind, get, modify, ret. simpl.
  intros [= <-]. split; [|done].
  exists []. simpl. split; [done|]. split; [done|]. split; [constructor|].
  split; [by left|done].
Qed.

End Inside.

(** ** A full redraw *)

Section Redraw.

Variable World : Type.

Local Abbreviation Machine := (Machine World).

Lemma printAt_draws x y t clean fg bg leading (m : Machine) :
  canUseDisplay m = true ->
  printAt World x y (Some t) clean fg bg leading m =
  Some (true, log (printAt_ops x y t clean fg bg leading) m).
Proof.
  intros Hc. unfold printAt, bind, get, ret, emit, modify.
  by rewrite Hc.
Qed.

Lemma displaySetting_line i row (m : Machine) a s :
  settings m = Some a ->
  canUseDisplay m = true ->
  index a i = Some s ->
  readable s ->
  displaySetting World i row false WHITE BLACK m =
  Some (true, log (line_ops row s) m).
Proof.
  intros Ha Hc Hs Hr.
  unfold displaySetting, displayName, displayValue, getSetting, and_then,
    bind, get, lift, ret, line_ops.
  rewrite Ha. simpl. rewrite Ha, Hs.
  destruct (name s) as [t|] eqn:Hn.
  - rewrite Ha. simpl. rewrite Ha, Hs, Hn.
    rewrite printAt_draws by done. simpl. rewrite Ha. simpl. rewrite Ha, Hs.
    destruct Hr as [v Hv]; [by rewrite Hn|]. rewrite Hv.
    rewrite printAt_draws by done. by rewrite log_log.
  - by rewrite printAt_draws.
Qed.

Lemma displaySettings_loop_lines first a todo : forall i (m : Machine),
  settings m = Some a ->
  canUseDisplay m = true ->
  0 <= first + i ->
  first + i + Z.of_nat todo <= Z.of_nat (length a) ->
  Forall readable (take todo (drop (Z.to_nat (first + i)) a)) ->
  displaySettings_loop World first i todo true m =
  Some (true,
        log (lines_ops i (take todo (drop (Z.to_nat (first + i)) a))) m).
Proof.
  induction todo as [|todo IH]; intros i m Ha Hc Hlo Hhi Hr; simpl.
  - by rewrite log_nil.
  - destruct (index_inside a (first + i)) as [s Hs]; [lia|].
    assert (Hk : a !! Z.to_nat (first + i) = Some s).
    { unfold index in Hs. by destruct (_ <? _). }
    rewrite (drop_S _ _ _ Hk) in Hr |- *. simpl in Hr |- *.
    apply Forall_cons in Hr as [Hrs Hr].
    unfold and_then, bind.
    rewrite (displaySetting_line _ _ m a s) by done.
    replace (S (Z.to_nat (first + i))) with (Z.to_nat (first + (i + 1)))
      in Hr |- * by lia.
    rewrite (IH (i + 1) (log (line_ops i s) m)) by (done || lia).
    by rewrite log_log.
Qed.

(** X17. A full redraw cannot fail once settings exist and the display is
    in use: [displaySettings] clears the screen, then draws the settings
    the window has room for, at most [TFT_LINES] of them from [first] on,
    one per row and in order, the name at column 2 and the value at
    [newValue] right-aligned from column 19, an empty line as a cleared
    row; it answers [true] and makes [first] the top of the window.
    Nothing else changes. *)
Theorem full_redraw first (m : Machine) a :
  settings m = Some a ->
  canUseDisplay m = true ->
  0 <= first ->
  Forall readable (shown first a) ->
  displaySettings World first m =
  Some (true,
        set_topSetting first
          (log (FillScreen ST7735_BLACK :: lines_ops 0 (shown first a)) m)).
Proof.
  intros Ha Hc Hfirst Hr.
  unfold displaySettings, bind, get, emit, modify, ret. rewrite Hc. simpl.
  set (n := if nSettings m - first >? TFT_LINES then TFT_LINES
            else nSettings m - first).
  assert (Hn : take (Z.to_nat n) (drop (Z.to_nat first) a) = shown first a).
  { unfold shown, n, nSettings. rewrite Ha, TFT_LINES_is_16.
    destruct (Z.gtb_spec (Z.of_nat (length a) - first) 16); [done|].
    rewrite !take_ge; [done|rewrite length_drop; lia..]. }
  destruct (decide (0 < n)) as [Hpos|Hneg].
  - rewrite (displaySettings_loop_lines first a (Z.to_nat n) 0).
    + replace (first + 0) with first by lia. rewrite Hn.
      by rewrite log_log.
    + done.
    + done.
    + lia.
    + unfold n, nSettings in *. rewrite Ha, TFT_LINES_is_16 in *.
      destruct (Z.gtb_spec (Z.of_nat (length a) - first) 16); lia.
    + replace (first + 0) with first by lia. by rewrite Hn.
  - replace (Z.to_nat n) with 0%nat in * by lia.
    rewrite <- Hn. reflexivity.
Qed.

End Redraw.

(** * The rest of the library at work *)

(** X1 with room for two settings and three requests: IF and TAPS are
    kept, AGC is turned away. *)
Lemma capacity_is_respected_witness :
  exists m,
    run nat Demo.client (map Create_of Tour.requests) Tour.small = Some m /\
    settings m = Some [Tour.IF; Tour.TAPS] /\
    nSettings m = 2.
Proof.
  destruct (capacity_is_respected nat Demo.client 2 0%nat Tour.small
              Tour.requests) as (m & H1 & H2 & H3 & _);
    [lia|reflexivity|].
  exists m. split; [exact H1|]. split; [exact H2|exact H3].
Defined.

(** X2 on the long menu without the display. *)
Lemma nothing_drawn_without_display_witness :
  exists r m',
    exec nat Demo.client Up Demo.dark = Some (r, m') /\
    canUseDisplay m' = false /\
    drawn (trace m') = drawn (trace Demo.dark).
Proof.
  eexists _, _. split; [vm_compute; reflexivity|].
  apply (nothing_drawn_without_display nat Demo.client Up Demo.dark _ false);
    [discriminate|reflexivity|vm_compute; reflexivity].
Defined.

(** X3 on the browsing demo menu. *)
Lemma client_called_only_while_editing_witness :
  exists r m',
    exec nat Demo.client OK Demo.browsing = Some (r, m') /\
    calls (trace m') = calls (trace Demo.browsing) /\
    world m' = world Demo.browsing.
Proof.
  eexists _, _. split; [vm_compute; reflexivity|].
  apply (client_called_only_while_editing nat Demo.client OK Demo.browsing
           _ true); [reflexivity|vm_compute; reflexivity].
Defined.

(** X4: scrolling IF leaves TAPS, at index 2, as it is. *)
Lemma other_settings_untouched_witness :
  exists r m',
    exec nat Demo.client Up Demo.editing_IF = Some (r, m') /\
    index (entries (settings m')) 2 =
    index (entries (settings Demo.editing_IF)) 2.
Proof.
  eexists _, _. split; [vm_compute; reflexivity|].
  apply (other_settings_untouched nat Demo.client Up Demo.editing_IF _ true);
    [vm_compute; reflexivity|vm_compute; discriminate|reflexivity].
Defined.

(** X5: IF stays IF, with both indices inside its three values. *)
Lemma setting_stays_in_bounds_witness :
  exists s',
    exec nat Demo.client Up Demo.editing_IF = Some (true, Demo.IF_scrolled) /\
    index (entries (settings Demo.IF_scrolled)) 0 = Some s' /\
    same_setting Tour.IF s' /\ bounded s'.
Proof.
  destruct (setting_stays_in_bounds nat Demo.client Up Demo.editing_IF
              Demo.IF_scrolled true 0 Tour.IF) as (s' & H1 & H2 & H3);
    [reflexivity|reflexivity|].
  exists s'. split; [reflexivity|].
  split; [exact H1|]. split; [exact H2|].
  apply H3. unfold bounded. simpl. lia.
Defined.

(** X6: OK on the browsing demo menu starts an edit. *)
Lemma mode_switches_witness :
  exists r m',
    exec nat Demo.client OK Demo.browsing = Some (r, m') /\
    editing m' = true.
Proof.
  eexists _, _. split; [vm_compute; reflexivity|].
  apply (mode_switches nat Demo.client OK Demo.browsing _ true);
    [discriminate|vm_compute; reflexivity].
Defined.

(** X7: accepting the scrolled TAPS leaves every setting settled. *)
Lemma pending_values_settled_witness :
  exists r m',
    exec nat Demo.client OK Demo.TAPS_scrolled = Some (r, m') /\
    forall i s,
      index (entries (settings m')) i = Some s ->
      (editing m' = true -> i <> currentSetting m') ->
      newValue s = currentValue s.
Proof.
  eexists _, _. split; [vm_compute; reflexivity|].
  apply (pending_values_settled nat Demo.client OK Demo.TAPS_scrolled _ true);
    [vm_compute; reflexivity|discriminate|].
  intros i s Hs Hi. specialize (Hi eq_refl). simpl in Hi.
  unfold index in Hs. destruct (i <? 0); [discriminate|].
  assert (Hn : Z.to_nat i <> 2%nat) by lia.
  destruct (Z.to_nat i) as [|[|[|[|k]]]]; simpl in Hs;
    try (injection Hs as <-; reflexivity); [lia|discriminate].
Defined.

(** X8 on the machine that edits TAPS. *)
Lemma cursor_rests_on_a_name_witness :
  currentSetting Demo.editing_TAPS = 0 \/
  (0 < currentSetting Demo.editing_TAPS < nSettings Demo.editing_TAPS /\
   named (entries (settings Demo.editing_TAPS))
         (currentSetting Demo.editing_TAPS)).
Proof.
  apply (cursor_rests_on_a_name nat Demo.client).
  exists 32, true, 0%nat, true, Tour.empty, (Demo.menu ++ [Up; OK]).
  split; reflexivity.
Defined.

(** X9: Up from IF passes the empty line and stops at TAPS. *)
Lemma browsing_goes_to_next_name_witness :
  exec nat Demo.client Up Demo.browsing = Some (true, Tour.at_TAPS) /\
  currentSetting Tour.at_TAPS = 2 /\
  next_named 1 (entries (settings Demo.browsing)) 0 2.
Proof.
  split; [reflexivity|]. split; [reflexivity|].
  exact (proj1 (browsing_goes_to_next_name nat Demo.client Up 1
                  Demo.browsing Tour.at_TAPS true eq_refl eq_refl eq_refl)).
Defined.

(** X10: the cursor leaves the window of the long menu and the window
    follows by one line. *)
Lemma window_follows_cursor_witness :
  exec nat Demo.client Up Demo.lit = Some (true, Tour.window_moved) /\
  topSetting Demo.lit = 0 /\
  currentSetting Tour.window_moved = 16 /\
  in_window nat Tour.window_moved 16 = true /\
  topSetting Tour.window_moved = 1.
Proof.
  split; [reflexivity|]. split; [reflexivity|]. split; [reflexivity|].
  destruct (window_follows_cursor nat Demo.client Up 1 Demo.lit
              Tour.window_moved true) as (_ & H1 & H2);
    [reflexivity|reflexivity|reflexivity|reflexivity|simpl; lia|].
  split; [exact H1|exact H2].
Defined.

(** X11 on IF while it is edited with its current value shown. *)
Lemma value_cell_redrawn_witness :
  exists m',
    highlightValue nat Demo.editing_IF = Some (true, m') /\
    trace m' =
      trace Demo.editing_IF ++
      [FillRect 114 0 42 8 BLACK; SetCursor 114 0; SetTextColor BLUE;
       Print " "; Print " "; Print " "; Print "4500"].
Proof.
  eexists. split.
  - apply (value_cell_redrawn nat Demo.editing_IF
             (entries (settings Demo.editing_IF)) Tour.IF "4500");
      [reflexivity|reflexivity|reflexivity|reflexivity|reflexivity].
  - reflexivity.
Defined.

(** X12: on the demo menu OK finds a value to show; before any setting
    exists it does not. *)
Lemma OK_needs_a_value_to_show_witness :
  is_Some (exec nat Demo.client OK Demo.browsing) /\
  ~ is_Some (exec nat Demo.client OK Tour.empty).
Proof.
  split.
  - apply (OK_needs_a_value_to_show nat Demo.client Demo.browsing);
      [reflexivity|].
    eexists _, _. split; reflexivity.
  - intros H.
    apply (OK_needs_a_value_to_show nat Demo.client Tour.empty) in H
      as (s & v & Hsel & _); [discriminate Hsel|reflexivity].
Defined.

(** X13: taking the display for the long menu. *)
Lemma displayOn_redraws_in_place_witness :
  settingsDisplayOn nat Demo.dark = Some (true, Tour.relit) /\
  canUseDisplay Tour.relit = true /\
  topSetting Tour.relit = topSetting Demo.dark /\
  logic nat Tour.relit = logic nat Demo.dark.
Proof.
  split; [reflexivity|].
  destruct (displayOn_redraws_in_place nat Demo.dark Tour.relit true
              eq_refl) as (H1 & H2 & H3 & _).
  split; [exact H1|]. split; [exact H2|exact H3].
Defined.

(** X14: Up from IF to TAPS on the demo menu. *)
Lemma cursor_mark_moves_witness :
  exec nat Demo.client Up Demo.browsing = Some (true, Tour.at_TAPS) /\
  trace Tour.at_TAPS =
    trace Demo.browsing ++
    [FillRect 0 0 6 8 BLACK; SetCursor 0 0; SetTextColor WHITE; Print " ";
     FillRect 0 16 6 8 BLACK; SetCursor 0 16; SetTextColor WHITE;
     Print ">"].
Proof.
  split; [reflexivity|].
  destruct (cursor_mark_moves nat Demo.client Up 1 Demo.browsing
              Tour.at_TAPS true) as [H _];
    [reflexivity|reflexivity|reflexivity|reflexivity|simpl; lia|
     reflexivity|].
  exact H.
Defined.



(** X17 on the demo menu: four rows, the second one the empty line. *)
Lemma full_redraw_witness :
  displaySettings nat 0 Demo.browsing =
  Some (true,
        set_topSetting 0
          (log (FillScreen ST7735_BLACK ::
                lines_ops 0 (shown 0 (entries (settings Demo.browsing))))
               Demo.browsing)) /\
  length (shown 0 (entries (settings Demo.browsing))) = 4%nat.
Proof.
  split; [|reflexivity].
  apply (full_redraw nat 0 Demo.browsing (entries (settings Demo.browsing)));
    [reflexivity|reflexivity|lia|].
  repeat apply Forall_cons_2; try apply Forall_nil_2;
    unfold readable; simpl; intros Hn;
    try (exfalso; apply Hn; reflexivity); eexists; reflexivity.
Defined.
